(** * visualize_layers: activation maximisation of convolution filters

    A shallow embedding of [keras_export/visualize_layers.py].

    Floating-point numbers are read as real numbers (exact arithmetic); the
    arithmetic of [deprocess_image] is given a second time on binary64
    floats, for what depends on rounding.
    A Python [str] is a [string] holding its UTF-8 bytes.  NumPy arrays
    live in a store of buffers, because [deprocess_image] and the ascent
    loop update their arrays in place; Python exceptions are values of
    [pyerror].  What the program prints, every evaluation of the Keras
    backend function and every image written are recorded, in order, in
    the log of the world. *)

From Stdlib Require Import Floats.
From Stdlib Require Import String Ascii DecimalString.
From Stdlib Require Import Reals Lra Lia ZArith Bool Arith List Sorted.
Import ListNotations.

Open Scope R_scope.

(** ** Python values *)

Definition pystr := string.

Inductive pyerror :=
| AssertionError
| TypeError
| ValueError
| IndexError
| NameError.

(** [str(n)] and ['%d' % n] for a non-negative integer. *)
Definition str_int (n : nat) : pystr := NilZero.string_of_uint (Nat.to_uint n).

(** ** NumPy on real numbers *)

Module np.

Definition sum (a : list R) : R := fold_right Rplus 0 a.

(** [a.mean()] *)
Definition mean (a : list R) : R := sum a / INR (length a).

(** [a.std()]: the population standard deviation. *)
Definition std (a : list R) : R :=
  sqrt (mean (map (fun v => (v - mean a) * (v - mean a)) a)).

(** [np.clip(v, lo, hi)] on one element: [minimum(maximum(v, lo), hi)]. *)
Definition clip1 (lo hi v : R) : R := Rmin (Rmax v lo) hi.

Definition clip (a : list R) (lo hi : R) : list R := map (clip1 lo hi) a.

(** Conversion of a float to an integer type truncates toward zero. *)
Definition to_int (v : R) : Z :=
  if Rle_dec 0 v then Zfloor v else (- Zfloor (- v))%Z.

(** [.astype('uint8')] on one element. *)
Definition to_uint8 (v : R) : Z := (to_int v mod 256)%Z.

(** Number of elements of an array of shape [s]. *)
Definition size (s : list nat) : nat := fold_right Nat.mul 1%nat s.

(** The data of [a.transpose((1, 2, 0))] for [a] of shape [(d0, d1, d2)],
    in row-major order of the new shape [(d1, d2, d0)]. *)
Definition transpose120 (d0 d1 d2 : nat) (a : list R) : list R :=
  flat_map (fun j =>
    flat_map (fun k =>
      map (fun i => nth ((i * d1 + j) * d2 + k) a 0) (seq 0 d0))
      (seq 0 d2))
    (seq 0 d1).

(** [np.squeeze] on a shape: the axes of length one are removed. *)
Definition squeeze (s : list nat) : list nat :=
  filter (fun d => negb (Nat.eqb d 1)) s.

End np.

(** Element-wise combination of two arrays of the same shape. *)
Fixpoint zip_with {A B C} (f : A -> B -> C) (a : list A) (b : list B) : list C :=
  match a, b with
  | x :: a', y :: b' => f x y :: zip_with f a' b'
  | _, _ => []
  end.

(** A float array object: a buffer of the store seen under a shape.
    Indexing an array with [[0]] gives another object on the same buffer. *)
Record ndarray := { buf : nat; shape : list nat }.

(** The [uint8] arrays are never updated after their creation: values. *)
Record uint8_array := { ishape : list nat; idata : list Z }.

(** ** The world *)

Inductive event :=
| Print (s : pystr)
| Eval (x : list R) (loss : R) (grads : list R)
| ImSave (path : pystr) (img : uint8_array).

Record world := {
  heap : list (list R);
  log : list event;
  rng : nat;
  clock : nat
}.

Definition M (A : Type) : Type := world -> world * (pyerror + A).

Definition ret {A} (a : A) : M A := fun w => (w, inr a).

Definition raise {A} (e : pyerror) : M A := fun w => (w, inl e).

Definition bind {A B} (m : M A) (k : A -> M B) : M B :=
  fun w =>
    match m w with
    | (w', inl e) => (w', inl e)
    | (w', inr a) => k a w'
    end.

Notation "x <- m ;; k" := (bind m (fun x => k))
  (at level 61, m at next level, right associativity).
Notation "m ;; k" := (bind m (fun _ => k))
  (at level 61, right associativity).

Definition emit (e : event) : M unit :=
  fun w => ({| heap := heap w; log := log w ++ [e]; rng := rng w; clock := clock w |},
            inr tt).

Definition print (s : pystr) : M unit := emit (Print s).

(** Replace the element at position [i]. *)
Fixpoint update {A} (i : nat) (v : A) (l : list A) : list A :=
  match l, i with
  | [], _ => []
  | _ :: l', O => v :: l'
  | x :: l', S i' => x :: update i' v l'
  end.

(** The elements an array object sees. *)
Definition contents (x : ndarray) (w : world) : list R :=
  firstn (np.size (shape x)) (nth (buf x) (heap w) []).

Definition read (x : ndarray) : M (list R) := fun w => (w, inr (contents x w)).

(** Store [d] as the elements an array object sees; the rest of the buffer
    is left as it is. *)
Definition store (x : ndarray) (d : list R) (w : world) : world :=
  let old := nth (buf x) (heap w) [] in
  {| heap := update (buf x) (d ++ skipn (np.size (shape x)) old) (heap w);
     log := log w; rng := rng w; clock := clock w |}.

Definition write (x : ndarray) (d : list R) : M unit :=
  fun w => (store x d w, inr tt).

(** A new buffer with elements [d]. *)
Definition push (d : list R) (w : world) : world :=
  {| heap := heap w ++ [d]; log := log w; rng := rng w; clock := clock w |}.

(** A new array with elements [d] and shape [s]. *)
Definition alloc (d : list R) (s : list nat) : M ndarray :=
  fun w => (push d w, inr {| buf := length (heap w); shape := s |}).

(** An in-place operator ([-=], [/=], [*=], [+=]) with a scalar operand. *)
Definition inplace (f : R -> R) (x : ndarray) : M unit :=
  d <- read x ;; write x (map f d).

(** [x += g] for an array [g] of the shape of [x]. *)
Definition iadd (x : ndarray) (g : list R) : M unit :=
  d <- read x ;; write x (zip_with Rplus d g).

(** [x[0]]: a view, on the same buffer, of the first entry along the
    leading axis. *)
Definition getitem0 (x : ndarray) : M ndarray :=
  match shape x with
  | [] => raise IndexError
  | O :: _ => raise IndexError
  | S _ :: s => ret {| buf := buf x; shape := s |}
  end.

(** ** The Keras backend and the host *)

Inductive data_format := channels_first | channels_last.

(** [K.epsilon()] and [K.image_data_format()]. *)
Record backend := {
  epsilon : R;
  image_data_format : data_format
}.

(** What the program takes from its host: the stream of samples behind
    [np.random.random], the formatted time of the n-th call of
    [datetime.datetime.now()], and how a float is formatted by [format]. *)
Record host := {
  random_stream : nat -> R;
  now_str : nat -> pystr;
  float_str : R -> pystr
}.

(** A layer of the loaded model.  The symbolic expressions the program
    builds from a layer are given by the functions they compute:
    [output_mean f x] is the value of [K.mean(layer.output[:, :, :, f])] when
    the input placeholder holds [x], and [output_grad f x j] the derivative
    of that loss by the j-th element of the input. *)
Record layer := {
  type_name : pystr;
  name : pystr;
  weights_shapes : list (list nat);
  output_mean : nat -> list R -> R;
  output_grad : nat -> list R -> nat -> R
}.

(** A model: its layers and the shape of its input placeholder (the batch
    axis first). *)
Record model := {
  layers : list layer;
  input_shape : list nat
}.

Section Program.

Variable K : backend.
Variable H : host.

(** *** deprocess_image *)

Definition deprocess_image (x : ndarray) : M uint8_array :=
  (* x -= x.mean() *)
  d <- read x ;;
  inplace (fun v => v - np.mean d) x ;;
  (* x /= (x.std() + K.epsilon()) *)
  d <- read x ;;
  inplace (fun v => v / (np.std d + epsilon K)) x ;;
  (* x *= 0.1 *)
  inplace (fun v => v * 0.1) x ;;
  (* x += 0.5 *)
  inplace (fun v => v + 0.5) x ;;
  (* x = np.clip(x, 0, 1) *)
  d <- read x ;;
  x <- alloc (np.clip d 0 1) (shape x) ;;
  (* x *= 255 *)
  inplace (fun v => v * 255) x ;;
  x <- match image_data_format K with
       | channels_first =>
           (* x = x.transpose((1, 2, 0)) *)
           match shape x with
           | [d0; d1; d2] =>
               d <- read x ;;
               alloc (np.transpose120 d0 d1 d2 d) [d1; d2; d0]
           | _ => raise ValueError
           end
       | channels_last => ret x
       end ;;
  (* x = np.clip(x, 0, 255).astype('uint8') *)
  d <- read x ;;
  ret {| ishape := shape x; idata := map np.to_uint8 (np.clip d 0 255) |}.

(** *** normalize *)

Definition K_square (x : list R) : list R := map (fun v => v * v) x.
Definition K_mean (x : list R) : R := np.mean x.
Definition K_sqrt (v : R) : R := sqrt v.

Definition normalize (x : list R) : list R :=
  let d := K_sqrt (K_mean (K_square x)) + epsilon K in
  map (fun v => v / d) x.

(** *** process_conv_2d_layer *)

(** [iterate = K.function([input_img], [loss, grads])] for filter [f]. *)
Definition iterate (l : layer) (f : nat) (x : list R) : R * list R :=
  (output_mean l f x,
   normalize (map (output_grad l f x) (seq 0 (length x)))).

(** [iterate([input_img_data])]: one evaluation of the backend function. *)
Definition call_iterate (l : layer) (f : nat) (x : ndarray) : M (R * list R) :=
  d <- read x ;;
  let r := iterate l f d in
  emit (Eval d (fst r) (snd r)) ;;
  ret r.

(** [np.random.random(s)] *)
Definition np_random (s : list nat) : M ndarray :=
  fun w =>
    let n := np.size s in
    alloc (map (random_stream H) (seq (rng w) n)) s
      {| heap := heap w; log := log w; rng := (rng w + n)%nat; clock := clock w |}.

(** The loop [for i in range(20)] of gradient ascent, over the values [i]
    still to come; [loss_value] is the variable of that name, [None] as long
    as it is not assigned. *)
Fixpoint ascent_loop (l : layer) (f : nat) (input_img_data : ndarray) (step : R)
    (range : list nat) (loss_value : option R) : M (option R) :=
  match range with
  | [] => ret loss_value
  | _ :: range' =>
      r <- call_iterate l f input_img_data ;;
      let loss_value := fst r in
      let grads_value := snd r in
      iadd input_img_data (map (fun g => g * step) grads_value) ;;
      if Rle_dec loss_value 0 then
        print ("Skipping filter " ++ str_int f ++ ", loss "
               ++ float_str H loss_value)%string ;;
        ret (Some loss_value)
      else
        ascent_loop l f input_img_data step range' (Some loss_value)
  end.

(** The body of the loop [for filter_index in range(filter_cnt)]; it gives
    the list [kept_filters] after the body. *)
Definition process_filter (l : layer) (img_width img_height img_chans : nat)
    (kept_filters : list (uint8_array * R)) (filter_index : nat)
    : M (list (uint8_array * R)) :=
  print ("Processing filter " ++ str_int filter_index)%string ;;
  let step := 1 in
  input_img_data <- np_random [1%nat; img_width; img_height; img_chans] ;;
  d <- read input_img_data ;;
  input_img_data <- alloc (map (fun v => (v - 0.5) * 20 + 128) d)
                      (shape input_img_data) ;;
  loss_value <- ascent_loop l filter_index input_img_data step (seq 0 20) None ;;
  match loss_value with
  | None => raise NameError
  | Some loss_value =>
      if Rgt_dec loss_value 0 then
        x <- getitem0 input_img_data ;;
        img <- deprocess_image x ;;
        ret (kept_filters ++ [(img, loss_value)])
      else ret kept_filters
  end.

Fixpoint for_filters (l : layer) (img_width img_height img_chans : nat)
    (range : list nat) (kept_filters : list (uint8_array * R))
    : M (list (uint8_array * R)) :=
  match range with
  | [] => ret kept_filters
  | filter_index :: range' =>
      kept_filters <- process_filter l img_width img_height img_chans
                        kept_filters filter_index ;;
      for_filters l img_width img_height img_chans range' kept_filters
  end.

Definition process_conv_2d_layer (l : layer) (input_img : list nat)
    : M (list (uint8_array * R)) :=
  (* filter_cnt = layer.get_weights()[0].shape[-1] *)
  filter_cnt <- match weights_shapes l with
                | [] => raise IndexError
                | s :: _ =>
                    match rev s with
                    | [] => raise IndexError
                    | n :: _ => ret n
                    end
                end ;;
  print ("Processing layer " ++ name l ++ " with " ++ str_int filter_cnt
         ++ " filters")%string ;;
  (* img_width, img_height, img_chans = input_img.shape[1:4] *)
  match firstn 3 (skipn 1 input_img) with
  | [img_width; img_height; img_chans] =>
      for_filters l img_width img_height img_chans (seq 0 filter_cnt) []
  | _ => raise ValueError
  end.

(** *** is_ascii *)

(** [some_string.encode('ascii')] fails exactly when a character is outside
    the 7-bit range, that is, when a byte of the UTF-8 form is above 127. *)
Fixpoint is_ascii (some_string : pystr) : bool :=
  match some_string with
  | EmptyString => true
  | String c s => (nat_of_ascii c <? 128)%nat && is_ascii s
  end.

(** *** process_layers *)

Definition process_layer_functions
    : list (pystr * (layer -> list nat -> M (list (uint8_array * R)))) :=
  [("Conv2D"%string, process_conv_2d_layer)].

(** [dict.get(key, None)] *)
Fixpoint dict_get {V} (d : list (pystr * V)) (key : pystr) : option V :=
  match d with
  | [] => None
  | (k, v) :: d' => if String.eqb k key then Some v else dict_get d' key
  end.

Definition enumerate {A} (l : list A) : list (nat * A) :=
  combine (seq 0 (length l)) l.

(** [datetime.datetime.now().strftime(...)] *)
Definition now_strftime : M pystr :=
  fun w =>
    ({| heap := heap w; log := log w; rng := rng w; clock := S (clock w) |},
     inr (now_str H (clock w))).

Definition file_name (out_dir date_time_str name : pystr) (i : nat) (loss : R)
    : pystr :=
  (out_dir ++ "/" ++ date_time_str ++ "_" ++ name ++ "_" ++ str_int i ++ "_"
   ++ float_str H loss ++ ".png")%string.

(** The loop [for i, (image, loss) in enumerate(images_with_loss)]. *)
Fixpoint save_images (out_dir name : pystr)
    (items : list (nat * (uint8_array * R))) : M unit :=
  match items with
  | [] => ret tt
  | (i, (image, loss)) :: items' =>
      date_time_str <- now_strftime ;;
      let image := {| ishape := np.squeeze (ishape image);
                      idata := idata image |} in
      emit (ImSave (file_name out_dir date_time_str name i loss) image) ;;
      save_images out_dir name items'
  end.

Definition is_model (layer_type : pystr) : bool :=
  existsb (String.eqb layer_type) ["Model"%string; "Sequential"%string].

(** The body of the loop [for layer in layers].  The call
    [process_layers(layer)] for a nested model leaves out the required
    argument [out_dir]: Python raises [TypeError] at the call. *)
Definition layer_body (m : model) (out_dir : pystr) (l : layer) : M unit :=
  let layer_type := type_name l in
  if is_model layer_type then raise TypeError
  else
    let process_func := dict_get process_layer_functions layer_type in
    let name := name l in
    (if is_ascii name then ret tt else raise AssertionError) ;;
    match process_func with
    | Some process_func =>
        images_with_loss <- process_func l (input_shape m) ;;
        save_images out_dir name (enumerate images_with_loss)
    | None => ret tt
    end.

(** The loop [for layer in layers] of [process_layers(model, out_dir)]. *)
Fixpoint for_layers (m : model) (out_dir : pystr) (ls : list layer) : M unit :=
  match ls with
  | [] => ret tt
  | l :: ls' => layer_body m out_dir l ;; for_layers m out_dir ls'
  end.

Definition process_layers (m : model) (out_dir : pystr) : M unit :=
  for_layers m out_dir (layers m).

End Program.


(** ** [deprocess_image] on binary64 floats

    The arrays the program hands to [deprocess_image] come from
    [np.random.random]: their elements are binary64 floats, and the in-place
    operators keep that type. *)

Module np64.

(** NumPy adds the elements of a contiguous array by pairwise summation:
    fewer than eight elements are added in order, starting from zero; up to
    128 elements are added in eight interleaved partial sums, which are then
    added two by two, the elements after the last full group of eight being
    added in order at the end; a longer array is cut in two, the first part
    of half the length rounded down to a multiple of eight, and the sums of
    the parts are added. *)
Definition add_all (a : list float) (res : float) : float :=
  fold_left PrimFloat.add a res.

Fixpoint lanes (fuel : nat) (r a : list float) : list float :=
  match fuel with
  | O => r
  | S fuel' =>
      match a with
      | [] => r
      | _ :: _ => lanes fuel' (zip_with PrimFloat.add r (firstn 8 a)) (skipn 8 a)
      end
  end.

Definition unrolled (a : list float) : float :=
  let n := length a in
  let m := (n - n mod 8)%nat in
  let r := lanes n (firstn 8 a) (skipn 8 (firstn m a)) in
  let r i := nth i r 0%float in
  add_all (skipn m a)
    (((r 0%nat + r 1%nat) + (r 2%nat + r 3%nat))
     + ((r 4%nat + r 5%nat) + (r 6%nat + r 7%nat)))%float.

Fixpoint pairwise_sum (fuel : nat) (a : list float) : float :=
  let n := length a in
  if (n <? 8)%nat then add_all a 0%float
  else if (n <=? 128)%nat then unrolled a
  else
    match fuel with
    | O => unrolled a
    | S fuel' =>
        let n2 := (n / 2)%nat in
        let n2 := (n2 - n2 mod 8)%nat in
        (pairwise_sum fuel' (firstn n2 a) + pairwise_sum fuel' (skipn n2 a))%float
    end.

Definition sum (a : list float) : float :=
  (0 + pairwise_sum (length a) a)%float.

Definition of_nat (n : nat) : float :=
  PrimFloat.of_uint63 (Uint63.of_Z (Z.of_nat n)).

(** [a.mean()] *)
Definition mean (a : list float) : float := (sum a / of_nat (length a))%float.

(** [a.std()]: the square root of the mean of the squared deviations from
    the mean. *)
Definition std (a : list float) : float :=
  let m := mean a in
  PrimFloat.sqrt (mean (map (fun v => ((v - m) * (v - m))%float) a)).

(** [np.clip(v, lo, hi)] on one element; a NaN stays a NaN. *)
Definition clip1 (lo hi v : float) : float :=
  let v := if (v <? lo)%float then lo else v in
  if (hi <? v)%float then hi else v.

Definition clip (a : list float) (lo hi : float) : list float :=
  map (clip1 lo hi) a.

(** Conversion to an integer type truncates toward zero; what it gives for
    an infinity or a NaN depends on the platform, zero is taken here. *)
Definition to_int (v : float) : Z :=
  match Prim2SF v with
  | S754_finite s m e =>
      let z := Z.shiftl (Zpos m) e in
      if s then (- z)%Z else z
  | _ => 0%Z
  end.

(** [.astype('uint8')] on one element. *)
Definition to_uint8 (v : float) : Z := (to_int v mod 256)%Z.

End np64.

(** The bytes [deprocess_image] returns, under the channels-last format,
    for an array of the binary64 elements [d] when [K.epsilon()] is [eps].
    The constant of [x *= 0.1] is the binary64 float nearest to 0.1. *)
Definition deprocess_image64 (eps : float) (d : list float) : list Z :=
  (* x -= x.mean() *)
  let x := map (fun v => v - np64.mean d)%float d in
  (* x /= (x.std() + K.epsilon()) *)
  let x := map (fun v => v / (np64.std x + eps))%float x in
  (* x *= 0.1 *)
  let x := map (fun v => v * 0x1.999999999999ap-4)%float x in
  (* x += 0.5 *)
  let x := map (fun v => v + 0.5)%float x in
  (* x = np.clip(x, 0, 1) *)
  let x := np64.clip x 0 1 in
  (* x *= 255 *)
  let x := map (fun v => v * 255)%float x in
  (* x = np.clip(x, 0, 255).astype('uint8') *)
  map np64.to_uint8 (np64.clip x 0 255).


(** ** Models as loaded, and the entry point *)

(** The exceptions of this part of the program: those above, the one of an
    attribute that an object does not have, and the one of [sys.exit]. *)
Inductive pyexc :=
| Raised (e : pyerror)
| AttributeError
| SystemExit (code : nat).

(** A Keras object as the program reads it: a layer, with its class name
    and its name, its inbound nodes, the object in its attribute [model] when
    it has one (a [Sequential] does), its symbolic input, and its input layers
    and its layers when it has these attributes (a model does).  Nodes and
    input layers are given by numbers.  Objects are given by value: the
    program holds no second reference to an object it updates. *)
Unset Elimination Schemes.
Inductive kobj : Type :=
| KObj (self : layer) (inbound_nodes : list nat) (model_attr : option kobj)
       (input : list nat) (input_layers : option (list nat))
       (sublayers : option (list kobj)).
Set Elimination Schemes.

Definition self_of (o : kobj) : layer :=
  match o with KObj self _ _ _ _ _ => self end.

Definition inbound_of (o : kobj) : list nat :=
  match o with KObj _ ib _ _ _ _ => ib end.

Definition input_of (o : kobj) : list nat :=
  match o with KObj _ _ _ inp _ _ => inp end.

Definition layers_of (o : kobj) : option (list kobj) :=
  match o with KObj _ _ _ _ _ ls => ls end.

(** [type(o).__name__] *)
Definition class_of (o : kobj) : pystr := type_name (self_of o).

(** The layer [l] after [l.name = nm]. *)
Definition set_name (nm : pystr) (l : layer) : layer :=
  {| type_name := type_name l; name := nm;
     weights_shapes := weights_shapes l;
     output_mean := output_mean l; output_grad := output_grad l |}.

(** The truth value of a list. *)
Definition truthy {A} (l : list A) : bool :=
  match l with [] => false | _ :: _ => true end.

(** *** convert_sequential_to_model *)

Fixpoint convert_sequential_to_model (model : kobj) : pyexc + kobj :=
  match model with
  | KObj self ib md inp il ls =>
      (* the loop [for i in range(len(model.layers))] *)
      let loop :=
        fix loop (l : list kobj) : pyexc + list kobj :=
          match l with
          | [] => inr []
          | o :: l' =>
              match (if is_model (class_of o)
                     then convert_sequential_to_model o else inr o) with
              | inl e => inl e
              | inr o' =>
                  match loop l' with
                  | inl e => inl e
                  | inr l'' => inr (o' :: l'')
                  end
              end
          end in
      if String.eqb (type_name self) "Sequential" then
        (* model = model.model; model.name = name;
           model.inbound_nodes = inbound_nodes *)
        match md with
        | None => inl AttributeError
        | Some (KObj self' _ md' inp' il' ls') =>
            (* assert model.input_layers *)
            match il' with
            | None => inl AttributeError
            | Some il1 =>
                if truthy il1 then
                  (* assert model.layers *)
                  match ls' with
                  | None => inl AttributeError
                  | Some ls1 =>
                      if truthy ls1 then
                        match loop ls1 with
                        | inl e => inl e
                        | inr ls2 =>
                            inr (KObj (set_name (name self) self') ib md' inp'
                                   il' (Some ls2))
                        end
                      else inl (Raised AssertionError)
                  end
                else inl (Raised AssertionError)
            end
        end
      else
        match il with
        | None => inl AttributeError
        | Some il1 =>
            if truthy il1 then
              match ls with
              | None => inl AttributeError
              | Some ls1 =>
                  if truthy ls1 then
                    match loop ls1 with
                    | inl e => inl e
                    | inr ls2 => inr (KObj self ib md inp il (Some ls2))
                    end
                  else inl (Raised AssertionError)
              end
            else inl (Raised AssertionError)
        end
  end.

(** *** main *)

(** [K.backend()] and [K.floatx()]. *)
Record settings := {
  backend_name : pystr;
  floatx : pystr
}.

Definition usage : pystr :=
  "usage: [Keras model in HDF5 format] [image output directory]"%string.

(** [main()], for the arguments [sys.argv] and for [load_model] given by
    what it returns or raises for a path.  [K.set_learning_phase(1)] sets a
    flag of the backend; the functions of the layers are the ones of that
    phase. *)
Definition main (S : settings) (K : backend) (H : host)
    (load_model : pystr -> pyexc + kobj) (argv : list pystr)
    : world -> world * (pyexc + unit) :=
  fun w =>
    if negb (length argv =? 3)%nat then
      (fst (print usage w), inl (SystemExit 1))
    else if negb (String.eqb (backend_name S) "tensorflow") then
      (w, inl (Raised AssertionError))
    else if negb (String.eqb (floatx S) "float32") then
      (w, inl (Raised AssertionError))
    else
      match image_data_format K with
      | channels_first => (w, inl (Raised AssertionError))
      | channels_last =>
          let in_path := nth 1 argv EmptyString in
          let out_dir := nth 2 argv EmptyString in
          let w1 := fst (print ("loading " ++ in_path)%string w) in
          match load_model in_path with
          | inl e => (w1, inl e)
          | inr model =>
              match convert_sequential_to_model model with
              | inl e => (w1, inl e)
              | inr model =>
                  match layers_of model with
                  | None => (w1, inl AttributeError)
                  | Some ls =>
                      let m := {| layers := map self_of ls;
                                  input_shape := input_of model |} in
                      match process_layers K H m out_dir w1 with
                      | (w2, inl e) => (w2, inl (Raised e))
                      | (w2, inr _) => (w2, inr tt)
                      end
                  end
              end
          end
      end.

(** ** Notions used by the statements *)

(** [k * t] for a scalar [k]. *)
Definition scale (k : R) (t : list R) : list R := map (fun v => k * v) t.

(** The backend [K] with another value of [K.epsilon()]. *)
Definition with_epsilon (e : R) (K : backend) : backend :=
  {| epsilon := e; image_data_format := image_data_format K |}.

(** The root mean square of a tensor. *)
Definition rms (t : list R) : R := sqrt (np.mean (map (fun v => v * v) t)).

(** Modelled from the spec: the backend configuration the program runs
    under, which is not part of this source file: [K.epsilon()] is the
    Keras default 1e-7 and the data format is the one [main] asserts. *)
Definition default_backend : backend :=
  {| epsilon := 1 / 10000000; image_data_format := channels_last |}.

(** The same values with an epsilon of zero (exact arithmetic, no guard). *)
Definition exact_backend : backend := with_epsilon 0 default_backend.

(** The values [deprocess_image] leaves in the buffer of its argument:
    centred, rescaled and shifted, not yet clipped. *)
Definition shifted (K : backend) (d : list R) : list R :=
  let c := map (fun v => v - np.mean d) d in
  map (fun v => v / (np.std c + epsilon K) * 0.1 + 0.5) c.

(** The byte computed from one shifted value. *)
Definition pixel (v : R) : Z :=
  np.to_uint8 (np.clip1 0 255 (np.clip1 0 1 v * 255)).

(** An array object of the store: its buffer exists. *)
Definition valid (x : ndarray) (w : world) : Prop :=
  (buf x < length (heap w))%nat.

(** An array object whose buffer holds an element for every index of its
    shape. *)
Definition full (x : ndarray) (w : world) : Prop :=
  valid x w /\ length (contents x w) = np.size (shape x).

(** A world whose store holds the given buffers and in which nothing has
    happened yet. *)
Definition world_of (bufs : list (list R)) : world :=
  {| heap := bufs; log := []; rng := 0%nat; clock := 0%nat |}.


(** Arrays used as examples: an image of one row, two columns and three
    channels; a single gray-scale pixel; an image whose elements are all
    equal; and an image of mean 0.5 and standard deviation 0.1 - 1e-7. *)
Definition rgb_array : ndarray := {| buf := 0; shape := [1; 2; 3]%nat |}.
Definition rgb_world : world := world_of [[1; 2; 3; 4; 5; 6]].

Definition gray_array : ndarray := {| buf := 0; shape := [1; 1; 1]%nat |}.
Definition gray_world : world := world_of [[0]].



(** One evaluation of the backend function: the input it was evaluated at,
    the loss and the normalised gradient it gave. *)
Definition evaluation : Type := list R * R * list R.

Definition eval_input (e : evaluation) : list R := fst (fst e).
Definition eval_loss (e : evaluation) : R := snd (fst e).
Definition eval_grads (e : evaluation) : list R := snd e.

(** The evaluations among some events, in order. *)
Fixpoint evals (tr : list event) : list evaluation :=
  match tr with
  | [] => []
  | Eval x loss grads :: tr' => (x, loss, grads) :: evals tr'
  | _ :: tr' => evals tr'
  end.

(** The images written among some events, in order. *)
Fixpoint saves (tr : list event) : list (pystr * uint8_array) :=
  match tr with
  | [] => []
  | ImSave path img :: tr' => (path, img) :: saves tr'
  | _ :: tr' => saves tr'
  end.

(** The events that happened between the world [w] and a later world [w']. *)
Definition events_since (w w' : world) : list event :=
  skipn (length (log w)) (log w').

(** The variable [loss_value] after some evaluations. *)
Definition last_loss (loss_value : option R) (ev : list evaluation) : option R :=
  fold_left (fun _ e => Some (eval_loss e)) ev loss_value.

(** The tensor after one update from [x] with the gradient [g]. *)
Definition ascent_step (step : R) (x g : list R) : list R :=
  zip_with Rplus x (map (fun v => v * step) g).

(** The runs of the ascent loop: [ascent K l f step n x ev x'] when a loop of
    at most [n] iterations that starts with the tensor [x] makes the
    evaluations [ev] and ends with the tensor [x']. *)
Inductive ascent (K : backend) (l : layer) (f : nat) (step : R)
  : nat -> list R -> list evaluation -> list R -> Prop :=
| ascent_done x : ascent K l f step 0 x [] x
| ascent_break n x :
    fst (iterate K l f x) <= 0 ->
    ascent K l f step (S n) x
      [(x, fst (iterate K l f x), snd (iterate K l f x))]
      (ascent_step step x (snd (iterate K l f x)))
| ascent_next n x ev x' :
    ~ fst (iterate K l f x) <= 0 ->
    ascent K l f step n (ascent_step step x (snd (iterate K l f x))) ev x' ->
    ascent K l f step (S n) x
      ((x, fst (iterate K l f x), snd (iterate K l f x)) :: ev) x'.

(** A host used in the examples: every random sample is 0.5, the n-th
    time stamp reads [t] followed by [n], every loss is formatted as [L]. *)
Definition example_host : host :=
  {| random_stream := fun _ => 0.5;
     now_str := fun n => ("t" ++ str_int n)%string;
     float_str := fun _ => "L"%string |}.

(** Layers used in the examples.  The only filter of [biased_layer] has
    weights one and bias -200: its loss is the sum of the input minus 200 and
    every partial derivative is one.  The first filter of [half_dead_layer]
    is constantly zero and its second filter constantly one, whatever the
    input, so both have a zero gradient.  The name of [accent_layer] is the
    UTF-8 form of a letter e with an acute accent. *)
Definition biased_layer : layer :=
  {| type_name := "Conv2D"%string; name := "biased"%string;
     weights_shapes := [[1; 1; 1; 1]; [1]]%nat;
     output_mean := fun _ x => np.sum x - 200;
     output_grad := fun _ _ _ => 1 |}.

Definition half_dead_layer : layer :=
  {| type_name := "Conv2D"%string; name := "conv"%string;
     weights_shapes := [[3; 3; 1; 2]; [2]]%nat;
     output_mean := fun f _ => if Nat.eqb f 0 then 0 else 1;
     output_grad := fun _ _ _ => 0 |}.

Definition accent_layer : layer :=
  {| type_name := "Activation"%string;
     name := String (ascii_of_nat 195) (String (ascii_of_nat 169) EmptyString);
     weights_shapes := [];
     output_mean := fun _ _ => 0;
     output_grad := fun _ _ _ => 0 |}.

(** A batch of one single-pixel image, on the buffer of [gray_world]. *)
Definition batch_array : ndarray := {| buf := 0; shape := [1; 1; 1; 1]%nat |}.

(** The image handed to [imsave]: [np.squeeze(image)]. *)
Definition squeezed (image : uint8_array) : uint8_array :=
  {| ishape := np.squeeze (ishape image); idata := idata image |}.

(** Models used in the examples, on single-pixel gray-scale images. *)
Definition conv_model : model :=
  {| layers := [half_dead_layer]; input_shape := [1; 1; 1; 1]%nat |}.

Definition conv_then_accent_model : model :=
  {| layers := [half_dead_layer; accent_layer];
     input_shape := [1; 1; 1; 1]%nat |}.

Definition accent_then_conv_model : model :=
  {| layers := [accent_layer; half_dead_layer];
     input_shape := [1; 1; 1; 1]%nat |}.

(** What [deprocess_image] gives for an array of shape [sh] whose shifted
    values are [s]: under the channels-first format the scaled values are
    transposed before the conversion to bytes, and an array that does not have
    three axes cannot be transposed. *)
Definition deprocess_result (K : backend) (sh : list nat) (s : list R)
    : pyerror + uint8_array :=
  match image_data_format K with
  | channels_last => inr {| ishape := sh; idata := map pixel s |}
  | channels_first =>
      match sh with
      | [d0; d1; d2] =>
          inr {| ishape := [d1; d2; d0];
                 idata := map np.to_uint8
                            (np.clip
                               (np.transpose120 d0 d1 d2
                                  (map (fun v => v * 255) (np.clip s 0 1)))
                               0 255) |}
      | _ => inl ValueError
      end
  end.

(** The binary64 floats nearest to 1e-7, the Keras default of
    [K.epsilon()], and to 100000000.1. *)
Definition epsilon64 : float := 0x1.ad7f29abcaf48p-24%float.

(** A backend in the channels-first format and an array of two channels,
    one row and three columns, used as examples. *)
Definition first_backend : backend :=
  {| epsilon := 1 / 10000000; image_data_format := channels_first |}.

Definition planar_array : ndarray := {| buf := 0; shape := [2; 1; 3]%nat |}.

(** A flat array of six elements on the buffer of [rgb_world]. *)
Definition vector_array : ndarray := {| buf := 0; shape := [6]%nat |}.

(** The line printed when the filter [f] is skipped on the loss [lv]. *)
Definition skip_line (H : host) (f : nat) (lv : R) : pystr :=
  ("Skipping filter " ++ str_int f ++ ", loss " ++ float_str H lv)%string.

(** The events of a run of the ascent loop that makes the evaluations [ev]:
    the evaluations, then the skip line when the last loss is not positive. *)
Definition loop_events (H : host) (f : nat) (ev : list evaluation) : list event :=
  map (fun e => Eval (eval_input e) (eval_loss e) (eval_grads e)) ev
  ++ match last_loss None ev with
     | Some lv => if Rle_dec lv 0 then [Print (skip_line H f lv)] else []
     | None => []
     end.

(** The tensor a filter starts from when the random stream is at [r]. *)
Definition initial_tensor (H : host) (r n : nat) : list R :=
  map (fun v => (v - 0.5) * 20 + 128) (map (random_stream H) (seq r n)).

(** The lines printed among some events, in order. *)
Fixpoint prints (tr : list event) : list pystr :=
  match tr with
  | [] => []
  | Print s :: tr' => s :: prints tr'
  | _ :: tr' => prints tr'
  end.

(** The first line [process_conv_2d_layer] prints. *)
Definition layer_line (l : layer) (filter_cnt : nat) : pystr :=
  ("Processing layer " ++ name l ++ " with " ++ str_int filter_cnt
   ++ " filters")%string.

(** A layer the program has no function for, and a model made of it. *)
Definition dense_layer : layer :=
  {| type_name := "Dense"%string; name := "dense_1"%string;
     weights_shapes := [[4; 2]; [2]]%nat;
     output_mean := fun _ _ => 0;
     output_grad := fun _ _ _ => 0 |}.

Definition dense_model : model :=
  {| layers := [dense_layer; dense_layer]; input_shape := [1; 4]%nat |}.

(** A nested model seen as a layer of its parent, and a model holding it
    after a layer the program skips. *)
Definition nested_layer : layer :=
  {| type_name := "Model"%string; name := "inner"%string;
     weights_shapes := [];
     output_mean := fun _ _ => 0;
     output_grad := fun _ _ _ => 0 |}.

Definition nesting_model : model :=
  {| layers := [dense_layer; nested_layer; half_dead_layer];
     input_shape := [1; 1; 1; 1]%nat |}.

(** A nested model whose name is not ASCII, and a model holding it after a
    layer the program skips. *)
Definition accent_nested_layer : layer :=
  {| type_name := "Sequential"%string; name := name accent_layer;
     weights_shapes := [];
     output_mean := fun _ _ => 0;
     output_grad := fun _ _ _ => 0 |}.

Definition accent_nesting_model : model :=
  {| layers := [dense_layer; accent_nested_layer; half_dead_layer];
     input_shape := [1; 1; 1; 1]%nat |}.

(** The object [convert_sequential_to_model] goes on with: the object in
    the attribute [model] of a [Sequential], under the name and the inbound
    nodes of that [Sequential], and any other object itself. *)
Definition unwrapped (o : kobj) : option kobj :=
  match o with
  | KObj self ib md inp il ls =>
      if String.eqb (type_name self) "Sequential" then
        match md with
        | None => None
        | Some (KObj self' _ md' inp' il' ls') =>
            Some (KObj (set_name (name self) self') ib md' inp' il' ls')
        end
      else Some o
  end.

(** An object without [Sequential]: it is not one, and none of the models
    among its layers, at any depth, is one. *)
Unset Elimination Schemes.
Inductive flat : kobj -> Prop :=
| flat_obj self ib md inp il ls :
    type_name self <> "Sequential"%string ->
    (forall l, ls = Some l ->
       Forall (fun o => is_model (class_of o) = true -> flat o) l) ->
    flat (KObj self ib md inp il ls).

(** A model as Keras builds it: it has input layers and layers, at least
    one of each, the object in the attribute [model] of a [Sequential] is not a
    [Sequential] again, and the models among the layers are built the same
    way. *)
Inductive sound : kobj -> Prop :=
| sound_sequential self ib self' ib' md' inp inp' il ls il1 ls1 :
    type_name self = "Sequential"%string ->
    type_name self' <> "Sequential"%string ->
    il1 <> [] -> ls1 <> [] ->
    Forall (fun o => is_model (class_of o) = true -> sound o) ls1 ->
    sound (KObj self ib (Some (KObj self' ib' md' inp' (Some il1) (Some ls1)))
             inp il ls)
| sound_model self ib md inp il1 ls1 :
    type_name self <> "Sequential"%string ->
    il1 <> [] -> ls1 <> [] ->
    Forall (fun o => is_model (class_of o) = true -> sound o) ls1 ->
    sound (KObj self ib md inp (Some il1) (Some ls1)).
Set Elimination Schemes.

(** The loop of [convert_sequential_to_model] over the layers of a model. *)
Fixpoint convert_layers (l : list kobj) : pyexc + list kobj :=
  match l with
  | [] => inr []
  | o :: l' =>
      match (if is_model (class_of o)
             then convert_sequential_to_model o else inr o) with
      | inl e => inl e
      | inr o' =>
          match convert_layers l' with
          | inl e => inl e
          | inr l'' => inr (o' :: l'')
          end
      end
  end.

(** The number of objects of an object. *)
Fixpoint ksize (o : kobj) : nat :=
  match o with
  | KObj _ _ md _ _ ls =>
      S (match md with Some m => ksize m | None => O end
         + match ls with
           | Some l =>
               (fix total (l : list kobj) : nat :=
                  match l with
                  | [] => O
                  | x :: l' => (ksize x + total l')%nat
                  end) l
           | None => O
           end)%nat
  end.

(** The layer of a network, and models used as examples: a functional
    model of two layers, a sequential model around it, and a functional model
    with that sequential model among its layers. *)
Definition plain_obj (l : layer) : kobj := KObj l [] None [] None None.

Definition inner_model : kobj :=
  KObj {| type_name := "Model"%string; name := "sequential_1_model"%string;
          weights_shapes := [];
          output_mean := fun _ _ => 0; output_grad := fun _ _ _ => 0 |}
       [] None [1; 1; 1; 1]%nat (Some [0%nat])
       (Some [plain_obj dense_layer; plain_obj half_dead_layer]).

Definition sequential_model : kobj :=
  KObj {| type_name := "Sequential"%string; name := "sequential_1"%string;
          weights_shapes := [];
          output_mean := fun _ _ => 0; output_grad := fun _ _ _ => 0 |}
       [7%nat] (Some inner_model) [1; 1; 1; 1]%nat (Some [0%nat])
       (Some [plain_obj dense_layer; plain_obj half_dead_layer]).

Definition outer_model : kobj :=
  KObj {| type_name := "Model"%string; name := "model_1"%string;
          weights_shapes := [];
          output_mean := fun _ _ => 0; output_grad := fun _ _ _ => 0 |}
       [] None [1; 1; 1; 1]%nat (Some [0%nat])
       (Some [plain_obj dense_layer; sequential_model]).

(** A model without layers. *)
Definition empty_model : kobj :=
  KObj {| type_name := "Model"%string; name := "model_2"%string;
          weights_shapes := [];
          output_mean := fun _ _ => 0; output_grad := fun _ _ _ => 0 |}
       [] None [1; 1; 1; 1]%nat (Some [0%nat]) (Some []).

(** The settings [main] asks for. *)
Definition default_settings : settings :=
  {| backend_name := "tensorflow"%string; floatx := "float32"%string |}.

Definition input_layers_of (o : kobj) : option (list nat) :=
  match o with KObj _ _ _ _ il _ => il end.

(** A host function [load_model] that gives the same model for every
    path, and command lines with and without the two arguments. *)
Definition load_outer : pystr -> pyexc + kobj := fun _ => inr outer_model.

Definition good_argv : list pystr :=
  ["visualize_layers.py"; "model.h5"; "out"]%string.

Definition short_argv : list pystr := ["visualize_layers.py"; "model.h5"]%string.

Definition load_inner : pystr -> pyexc + kobj := fun _ => inr inner_model.

(** * Properties *)

(** ** The gradient normaliser *)

Section Normalize.

Lemma sum_scale (k : R) (t : list R) : np.sum (scale k t) = k * np.sum t.
Proof.
  unfold scale, np.sum.
  induction t as [|v t IH]; simpl.
  - lra.
  - rewrite IH. lra.
Qed.

Lemma sum_squares_nonneg (t : list R) : 0 <= np.sum (map (fun v => v * v) t).
Proof.
  unfold np.sum.
  induction t as [|v t IH]; simpl.
  - lra.
  - pose proof (Rle_0_sqr v) as Hv. unfold Rsqr in Hv. lra.
Qed.

Lemma mean_squares_nonneg (t : list R) : 0 <= np.mean (map (fun v => v * v) t).
Proof.
  unfold np.mean. rewrite length_map.
  destruct t as [|v t].
  - simpl. rewrite Rdiv_0_l. lra.
  - apply Rmult_le_pos.
    + apply sum_squares_nonneg.
    + left. apply Rinv_0_lt_compat. apply lt_0_INR. simpl. lia.
Qed.

Lemma rms_nonneg (t : list R) : 0 <= rms t.
Proof. apply sqrt_pos. Qed.

Lemma mean_squares_scale (k : R) (t : list R) :
  np.mean (map (fun v => v * v) (scale k t))
  = (k * k) * np.mean (map (fun v => v * v) t).
Proof.
  unfold np.mean, scale. rewrite !length_map, map_map.
  replace (map (fun v => k * v * (k * v)) t)
    with (scale (k * k) (map (fun v => v * v) t)).
  - rewrite sum_scale. unfold Rdiv. ring.
  - unfold scale. rewrite map_map. apply map_ext. intro v. ring.
Qed.

Lemma rms_scale (k : R) (t : list R) : rms (scale k t) = Rabs k * rms t.
Proof.
  unfold rms. rewrite mean_squares_scale.
  rewrite sqrt_mult_alt.
  - f_equal. fold (Rsqr k). apply sqrt_Rsqr_abs.
  - fold (Rsqr k). apply Rle_0_sqr.
Qed.

Variable K : backend.

Lemma normalize_unfold (t : list R) :
  normalize K t = map (fun v => v / (rms t + epsilon K)) t.
Proof. reflexivity. Qed.

Lemma normalize_length (t : list R) : length (normalize K t) = length t.
Proof. unfold normalize. apply length_map. Qed.

Lemma normalize_denominator_pos (t : list R) :
  0 < epsilon K -> 0 < rms t + epsilon K.
Proof. intro He. pose proof (rms_nonneg t). lra. Qed.

Lemma normalize_of_scaled (k : R) (t : list R) :
  k <> 0 ->
  normalize K (scale k t)
  = scale (k / Rabs k) (normalize (with_epsilon (epsilon K / Rabs k) K) t).
Proof.
  intro Hk.
  assert (Ha : Rabs k <> 0) by (apply Rabs_no_R0; exact Hk).
  unfold normalize, K_sqrt, K_mean, K_square. fold (rms (scale k t)) (rms t).
  simpl epsilon.
  rewrite rms_scale. unfold scale. rewrite !map_map.
  apply map_ext. intro v.
  replace (Rabs k * rms t + epsilon K)
    with (Rabs k * (rms t + epsilon K / Rabs k)) by (field; exact Ha).
  unfold Rdiv. rewrite Rinv_mult. ring.
Qed.

End Normalize.

(** C6.  [normalize] returns [t / (sqrt(mean(t^2)) + epsilon)], element by
    element and with the shape of [t]; with a positive epsilon the divisor is
    positive for every tensor, and the all-zero tensor is mapped to itself. *)
Theorem normalize_contract (K : backend) (t : list R) :
  0 < epsilon K ->
  0 < sqrt (np.mean (map (fun v => v * v) t)) + epsilon K
  /\ normalize K t
     = map (fun v => v / (sqrt (np.mean (map (fun v => v * v) t)) + epsilon K)) t
  /\ length (normalize K t) = length t
  /\ (Forall (fun v => v = 0) t -> normalize K t = t).
Proof.
  intro He. split; [|split; [|split]].
  - apply (normalize_denominator_pos K t He).
  - reflexivity.
  - apply normalize_length.
  - intro Hz. rewrite normalize_unfold.
    induction Hz as [|v t Hv Hz IH]; [reflexivity|].
    rewrite <- (map_id (v :: t)) at 2. apply map_ext_in.
    intros a Ha. subst v.
    assert (a = 0) as ->.
    { destruct Ha as [<-|Ha]; [reflexivity|].
      rewrite Forall_forall in Hz. apply Hz. exact Ha. }
    unfold Rdiv. ring.
Qed.

Lemma normalize_contract_witness :
  0 < epsilon default_backend
  /\ normalize default_backend [0; 0] = [0; 0].
Proof.
  assert (He : 0 < epsilon default_backend) by (simpl; lra).
  split; [exact He|].
  apply (normalize_contract default_backend [0; 0] He).
  repeat constructor.
Defined.

(** C4, as the code has it.  In exact arithmetic, for every tensor [t]
    whose divisor [rms t + epsilon] is not zero and every positive scalar [k],
    [normalize(k * t)] under epsilon is [normalize(t)] under [epsilon / k].
    With an epsilon of zero the two are equal.  With a positive epsilon
    [normalize(k * t)] is [normalize(t)] times
    the factor [(rms t + epsilon) / (rms t + epsilon / k)], which for [k >= 1]
    lies between 1 and [1 + epsilon / rms t]: the two are close when epsilon is
    small relative to the root mean square of [t], however large [k] is.  For
    a negative [k] the result is the negation of [normalize(t)] under
    [epsilon / |k|]. *)
Theorem normalize_scale (K : backend) (k : R) (t : list R) :
  k <> 0 ->
  0 <= epsilon K ->
  0 < rms t + epsilon K ->
  (0 < k ->
     normalize K (scale k t) = normalize (with_epsilon (epsilon K / k) K) t
     /\ (epsilon K = 0 -> normalize K (scale k t) = normalize K t)
     /\ (0 < epsilon K ->
         normalize K (scale k t)
         = scale ((rms t + epsilon K) / (rms t + epsilon K / k)) (normalize K t))
     /\ (0 < epsilon K -> 1 <= k ->
         1 <= (rms t + epsilon K) / (rms t + epsilon K / k)
         /\ (0 < rms t ->
             (rms t + epsilon K) / (rms t + epsilon K / k)
             <= 1 + epsilon K / rms t)))
  /\ (k < 0 ->
     normalize K (scale k t)
     = scale (-1) (normalize (with_epsilon (epsilon K / - k) K) t)).
Proof.
  intros Hk He0 Hdiv.
  pose proof (normalize_of_scaled K k t Hk) as Hany. split.
  - intro Hpos.
    assert (Hn : normalize K (scale k t)
                 = normalize (with_epsilon (epsilon K / k) K) t).
    { rewrite Hany. rewrite (Rabs_right k) by lra.
      replace (k / k) with 1 by (field; exact Hk).
      unfold scale. rewrite <- (map_id (normalize _ t)) at 2.
      apply map_ext. intro v. ring. }
    pose proof (rms_nonneg t) as Hr.
    assert (Hek : 0 < epsilon K -> 0 < epsilon K / k)
      by (intro He; apply Rdiv_lt_0_compat; assumption).
    split; [exact Hn|]. split; [|split].
    + intro H0. rewrite Hn. rewrite !normalize_unfold. simpl epsilon.
      rewrite H0. unfold Rdiv at 2. rewrite Rmult_0_l. reflexivity.
    + intro He. specialize (Hek He). rewrite Hn, !normalize_unfold.
      simpl epsilon. unfold scale. rewrite map_map. apply map_ext. intro v.
      set (D1 := rms t + epsilon K / k) in *.
      set (D2 := rms t + epsilon K) in *.
      assert (HD1 : D1 <> 0) by (unfold D1; lra).
      assert (HD2 : D2 <> 0) by (unfold D2; lra).
      clearbody D1 D2. field. split; assumption.
    + intros He Hk1. specialize (Hek He).
      assert (Hle : epsilon K / k <= epsilon K).
      { apply (Rmult_le_reg_r k); [exact Hpos|].
        replace (epsilon K / k * k) with (epsilon K) by (field; exact Hk).
        nra. }
      set (e' := epsilon K / k) in *.
      assert (Hcancel : (rms t + epsilon K) / (rms t + e') * (rms t + e')
                        = rms t + epsilon K).
      { assert (HD : rms t + e' <> 0) by lra.
        set (D := rms t + e') in *. clearbody D. field. exact HD. }
      split.
      * apply (Rmult_le_reg_r (rms t + e')); [lra|].
        rewrite Hcancel. lra.
      * intro Hrms.
        apply (Rmult_le_reg_r (rms t + e')); [lra|].
        rewrite Hcancel.
        assert (Hq : 0 < epsilon K / rms t)
          by (apply Rdiv_lt_0_compat; assumption).
        assert (Hq' : epsilon K / rms t * rms t = epsilon K)
          by (field; lra).
        set (q := epsilon K / rms t) in *. clearbody q. nra.
  - intro Hneg. rewrite Hany. rewrite (Rabs_left k) by lra.
    replace (k / - k) with (-1) by (field; exact Hk).
    reflexivity.
Qed.

Lemma normalize_scale_witness :
  normalize exact_backend (scale 2 [3; 4]) = normalize exact_backend [3; 4]
  /\ normalize default_backend (scale 2 [3; 4])
     = scale ((rms [3; 4] + epsilon default_backend)
              / (rms [3; 4] + epsilon default_backend / 2))
         (normalize default_backend [3; 4])
  /\ normalize default_backend (scale (-2) [3; 4])
     = scale (-1)
         (normalize (with_epsilon (epsilon default_backend / - -2) default_backend)
            [3; 4]).
Proof.
  assert (H2 : 2 <> 0) by lra.
  assert (H2' : -2 <> 0) by lra.
  assert (He : 0 < epsilon default_backend) by (simpl; lra).
  assert (He0 : 0 <= epsilon exact_backend) by (simpl; lra).
  assert (Hr : 0 < rms [3; 4]).
  { unfold rms. apply sqrt_lt_R0. unfold np.mean, np.sum. cbn. lra. }
  assert (Hd0 : 0 < rms [3; 4] + epsilon exact_backend) by (simpl; lra).
  assert (Hd : 0 < rms [3; 4] + epsilon default_backend) by lra.
  destruct (normalize_scale exact_backend 2 [3; 4] H2 He0 Hd0) as [Hpos _].
  destruct (normalize_scale default_backend 2 [3; 4] H2 (Rlt_le _ _ He) Hd)
    as [Hfac _].
  destruct (normalize_scale default_backend (-2) [3; 4] H2' (Rlt_le _ _ He) Hd)
    as [_ Hneg].
  split; [|split].
  - apply Hpos; [lra | reflexivity].
  - apply Hfac; [lra | exact He].
  - apply Hneg. lra.
Defined.

(** C4, as stated, fails for a negative factor: with an epsilon of zero and
    a tensor of root mean square one, [normalize(-1 * t)] is not
    [normalize(t)].  It also fails for a large positive factor on a tensor
    whose root mean square is small relative to epsilon: with an epsilon of
    1e-7, for [t = [1e-9]] and [k = 1e6], the element of [normalize(k * t)] is
    above 0.99 and the element of [normalize(t)] below 0.01. *)
Lemma normalize_scale_negative_counterexample :
  (-1 <> 0
   /\ rms [1] <> 0
   /\ epsilon exact_backend = 0
   /\ normalize exact_backend (scale (-1) [1]) <> normalize exact_backend [1])
  /\ (epsilon default_backend = 1 / 10000000
      /\ exists a b,
           normalize default_backend (scale 1000000 [1 / 1000000000]) = [a]
           /\ normalize default_backend [1 / 1000000000] = [b]
           /\ 0.99 < a /\ b < 0.01).
Proof.
  assert (Hone : forall v, 0 <= v -> rms [v] = v).
  { intros v Hv. unfold rms, np.mean. simpl.
    replace ((v * v + 0) / 1) with (Rsqr v) by (unfold Rsqr; field).
    apply sqrt_Rsqr. exact Hv. }
  assert (Hr : rms [1] = 1) by (apply Hone; lra).
  split.
  - split; [lra|]. split; [rewrite Hr; lra|]. split; [reflexivity|].
    assert (Hm : rms (scale (-1) [1]) = 1).
    { rewrite rms_scale, Hr. rewrite Rabs_left by lra. lra. }
    rewrite !normalize_unfold, Hm, Hr. simpl.
    intro Heq. injection Heq as Heq.
    assert (Hd : -1 * 1 / (1 + 0) = -1) by field.
    assert (Hd' : 1 / (1 + 0) = 1) by field.
    lra.
  - split; [reflexivity|].
    rewrite !normalize_unfold, rms_scale, Hone by lra.
    rewrite Rabs_right by lra. cbn [scale map epsilon default_backend].
    eexists. eexists. split; [reflexivity|]. split; [reflexivity|].
    split.
    + replace (1000000 * (1 / 1000000000)
               / (1000000 * (1 / 1000000000) + 1 / 10000000))
        with (10000 / 10001) by field.
      lra.
    + replace (1 / 1000000000 / (1 / 1000000000 + 1 / 10000000))
        with (1 / 101) by field.
      lra.
Qed.

(** ** The store and the monad *)

Section Store.

Lemma update_length {A} (i : nat) (v : A) (l : list A) :
  length (update i v l) = length l.
Proof.
  revert i. induction l as [|a l IH]; intros [|i]; simpl; auto.
Qed.

Lemma nth_update_same {A} (i : nat) (v d : A) (l : list A) :
  (i < length l)%nat -> nth i (update i v l) d = v.
Proof.
  revert i. induction l as [|a l IH]; intros [|i] Hi; simpl in *; try lia.
  - reflexivity.
  - apply IH. lia.
Qed.

Lemma nth_update_other {A} (i j : nat) (v d : A) (l : list A) :
  i <> j -> nth i (update j v l) d = nth i l d.
Proof.
  revert i j. induction l as [|a l IH]; intros [|i] [|j] Hij; simpl;
    try reflexivity; try congruence.
  apply IH. congruence.
Qed.

Lemma zip_with_length {A B C} (f : A -> B -> C) (a : list A) (b : list B) :
  length a = length b -> length (zip_with f a b) = length a.
Proof.
  revert b. induction a as [|x a IH]; intros [|y b] Hl; simpl in *;
    try reflexivity; try discriminate.
  f_equal. apply IH. congruence.
Qed.

Lemma bind_read {B} (x : ndarray) (k : list R -> M B) (w : world) :
  bind (read x) k w = k (contents x w) w.
Proof. reflexivity. Qed.

Lemma bind_write {B} (x : ndarray) (d : list R) (k : unit -> M B) (w : world) :
  bind (write x d) k w = k tt (store x d w).
Proof. reflexivity. Qed.

Lemma bind_inplace {B} (f : R -> R) (x : ndarray) (k : unit -> M B) (w : world) :
  bind (inplace f x) k w = k tt (store x (map f (contents x w)) w).
Proof. reflexivity. Qed.

Lemma bind_iadd {B} (x : ndarray) (g : list R) (k : unit -> M B) (w : world) :
  bind (iadd x g) k w = k tt (store x (zip_with Rplus (contents x w) g) w).
Proof. reflexivity. Qed.

Lemma bind_alloc {B} (d : list R) (s : list nat) (k : ndarray -> M B) (w : world) :
  bind (alloc d s) k w = k {| buf := length (heap w); shape := s |} (push d w).
Proof. reflexivity. Qed.

Lemma bind_ret {A B} (a : A) (k : A -> M B) (w : world) :
  bind (ret a) k w = k a w.
Proof. reflexivity. Qed.

Lemma bind_raise {A B} (e : pyerror) (k : A -> M B) (w : world) :
  bind (@raise A e) k w = (w, inl e).
Proof. reflexivity. Qed.

Lemma bind_emit {B} (e : event) (k : unit -> M B) (w : world) :
  bind (emit e) k w
  = k tt {| heap := heap w; log := log w ++ [e]; rng := rng w; clock := clock w |}.
Proof. reflexivity. Qed.

Lemma bind_assoc {A B C} (m : M A) (f : A -> M B) (g : B -> M C) (w : world) :
  bind (bind m f) g w = bind m (fun a => bind (f a) g) w.
Proof.
  unfold bind. destruct (m w) as [w' [e|a]]; reflexivity.
Qed.

Lemma contents_length (x : ndarray) (w : world) :
  (length (contents x w) <= np.size (shape x))%nat.
Proof. unfold contents. rewrite length_firstn. lia. Qed.

(** Writing through an array object as many elements as it sees. *)
Lemma contents_store (x : ndarray) (d : list R) (w : world) :
  valid x w -> length d = length (contents x w) ->
  contents x (store x d w) = d.
Proof.
  unfold valid, contents, store. simpl. intros Hv Hl.
  rewrite nth_update_same by exact Hv.
  set (old := nth (buf x) (heap w) []) in *.
  set (n := np.size (shape x)) in *.
  rewrite length_firstn in Hl.
  destruct (Nat.le_gt_cases n (length old)) as [Hle|Hgt].
  - rewrite firstn_app. replace (n - length d)%nat with 0%nat by lia.
    simpl. rewrite app_nil_r. apply firstn_all2. lia.
  - rewrite skipn_all2 by lia. rewrite app_nil_r. apply firstn_all2. lia.
Qed.

Lemma valid_store (x y : ndarray) (d : list R) (w : world) :
  valid x w -> valid x (store y d w).
Proof. unfold valid, store. simpl. rewrite update_length. auto. Qed.

Lemma valid_push (x : ndarray) (d : list R) (w : world) :
  valid x w -> valid x (push d w).
Proof. unfold valid, push. simpl. rewrite length_app. simpl. lia. Qed.

Lemma contents_push (x : ndarray) (d : list R) (w : world) :
  valid x w -> contents x (push d w) = contents x w.
Proof.
  unfold valid, contents, push. simpl. intro Hv.
  rewrite app_nth1 by exact Hv. reflexivity.
Qed.

Lemma contents_store_other (x y : ndarray) (d : list R) (w : world) :
  buf x <> buf y -> contents x (store y d w) = contents x w.
Proof.
  unfold contents, store. simpl. intro Hne.
  rewrite nth_update_other by exact Hne. reflexivity.
Qed.

(** A freshly allocated array holds the elements it was given. *)
Lemma contents_new (d : list R) (s : list nat) (w : world) :
  (length d <= np.size s)%nat ->
  contents {| buf := length (heap w); shape := s |} (push d w) = d.
Proof.
  unfold contents, push. simpl. intro Hl.
  rewrite app_nth2 by lia. rewrite Nat.sub_diag. simpl.
  apply firstn_all2. exact Hl.
Qed.

Lemma valid_new (d : list R) (s : list nat) (w : world) :
  valid {| buf := length (heap w); shape := s |} (push d w).
Proof. unfold valid, push. simpl. rewrite length_app. simpl. lia. Qed.

End Store.

(** ** The image postprocessor *)

Section Deprocess.

Variable K : backend.

Lemma shifted_length (d : list R) : length (shifted K d) = length d.
Proof. unfold shifted. rewrite !length_map. reflexivity. Qed.

(** What a call of [deprocess_image] does to the world and what it gives. *)
Lemma deprocess_image_run (x : ndarray) (w : world) :
  valid x w ->
  exists w' r,
    deprocess_image K x w = (w', r)
    /\ contents x w' = shifted K (contents x w)
    /\ valid x w'
    /\ log w' = log w /\ rng w' = rng w /\ clock w' = clock w
    /\ (image_data_format K = channels_last ->
        r = inr {| ishape := shape x;
                   idata := map pixel (shifted K (contents x w)) |})
    /\ (forall d0 d1 d2, shape x = [d0; d1; d2] -> exists img, r = inr img).
Proof.
  intro Hv. unfold deprocess_image.
  rewrite bind_read, bind_inplace.
  set (d := contents x w).
  set (c := map (fun v => v - np.mean d) d).
  set (w1 := store x c w).
  assert (H1 : contents x w1 = c)
    by (apply contents_store; [exact Hv | unfold c; apply length_map]).
  assert (V1 : valid x w1) by (apply valid_store; exact Hv).
  rewrite bind_read, bind_inplace, H1.
  set (c2 := map (fun v => v / (np.std c + epsilon K)) c).
  set (w2 := store x c2 w1).
  assert (H2 : contents x w2 = c2)
    by (apply contents_store; [exact V1 | rewrite H1; unfold c2; apply length_map]).
  assert (V2 : valid x w2) by (apply valid_store; exact V1).
  rewrite bind_inplace, H2.
  set (c3 := map (fun v => v * 0.1) c2).
  set (w3 := store x c3 w2).
  assert (H3 : contents x w3 = c3)
    by (apply contents_store; [exact V2 | rewrite H2; unfold c3; apply length_map]).
  assert (V3 : valid x w3) by (apply valid_store; exact V2).
  rewrite bind_inplace, H3.
  set (c4 := map (fun v => v + 0.5) c3).
  set (w4 := store x c4 w3).
  assert (H4 : contents x w4 = c4)
    by (apply contents_store; [exact V3 | rewrite H3; unfold c4; apply length_map]).
  assert (V4 : valid x w4) by (apply valid_store; exact V3).
  assert (Hs : c4 = shifted K d).
  { unfold c4, c3, c2, shifted. fold c. rewrite !map_map. reflexivity. }
  assert (L4 : (length c4 <= np.size (shape x))%nat)
    by (rewrite <- H4; apply contents_length).
  rewrite bind_read, H4, bind_alloc.
  set (y := {| buf := length (heap w4); shape := shape x |}).
  set (w5 := push (np.clip c4 0 1) w4).
  assert (H5 : contents y w5 = np.clip c4 0 1).
  { apply contents_new. unfold np.clip. rewrite length_map. exact L4. }
  assert (V5 : valid y w5) by apply valid_new.
  rewrite bind_inplace, H5.
  set (c6 := map (fun v => v * 255) (np.clip c4 0 1)).
  set (w6 := store y c6 w5).
  assert (H6 : contents y w6 = c6)
    by (apply contents_store; [exact V5 | rewrite H5; unfold c6; apply length_map]).
  assert (V6 : valid y w6) by (apply valid_store; exact V5).
  assert (Hx6 : contents x w6 = shifted K d).
  { unfold w6. rewrite contents_store_other.
    - unfold w5. rewrite contents_push by exact V4. rewrite H4. exact Hs.
    - unfold y. cbn [buf]. unfold valid in V4. lia. }
  assert (Vx6 : valid x w6)
    by (apply valid_store; apply valid_push; exact V4).
  assert (Hpix : map np.to_uint8 (np.clip c6 0 255) = map pixel (shifted K d)).
  { unfold c6, np.clip. rewrite <- Hs, !map_map. reflexivity. }
  destruct (image_data_format K) eqn:Hfmt.
  - (* channels_first *)
    change (shape y) with (shape x).
    destruct (shape x) as [|d0 [|d1 [|d2 [|d3 s]]]] eqn:Hshape;
      try (rewrite bind_raise; exists w6, (inl ValueError);
           split; [reflexivity|]; split; [exact Hx6|]; split; [exact Vx6|];
           split; [reflexivity|]; split; [reflexivity|]; split; [reflexivity|];
           split; [discriminate | intros; discriminate]).
    rewrite bind_assoc, bind_read, bind_alloc, bind_read.
    eexists. eexists. split; [reflexivity|].
    split; [rewrite contents_push by exact Vx6; exact Hx6|].
    split; [apply valid_push; exact Vx6|].
    split; [reflexivity|]. split; [reflexivity|]. split; [reflexivity|].
    split; [discriminate|]. intros. eexists. reflexivity.
  - (* channels_last *)
    rewrite bind_ret, bind_read, H6.
    exists w6. eexists. split; [reflexivity|].
    repeat split; try assumption.
    + intros _. change (shape y) with (shape x). rewrite Hpix. reflexivity.
    + intros. eexists. reflexivity.
Qed.

End Deprocess.

Section Statistics.

Lemma sum_map_sub (m : R) (d : list R) :
  np.sum (map (fun v => v - m) d) = np.sum d - INR (length d) * m.
Proof.
  unfold np.sum. induction d as [|v d IH].
  - simpl. lra.
  - cbn [map fold_right length]. rewrite IH, S_INR. lra.
Qed.

Lemma length_INR_nonzero {A} (d : list A) : d <> [] -> INR (length d) <> 0.
Proof.
  intro Hd. destruct d as [|v d]; [congruence|].
  apply not_0_INR. simpl. lia.
Qed.

Lemma mean_centered (d : list R) :
  d <> [] -> np.mean (map (fun v => v - np.mean d) d) = 0.
Proof.
  intro Hd. pose proof (length_INR_nonzero d Hd) as Hn.
  unfold np.mean at 1. rewrite length_map, sum_map_sub.
  unfold np.mean. field. exact Hn.
Qed.

Lemma std_centered (d : list R) :
  d <> [] -> np.std (map (fun v => v - np.mean d) d) = np.std d.
Proof.
  intro Hd. unfold np.std. rewrite mean_centered by exact Hd.
  rewrite map_map. f_equal. f_equal. apply map_ext. intro v. ring.
Qed.



Lemma clip1_bounds (lo hi v : R) : lo <= hi -> lo <= np.clip1 lo hi v <= hi.
Proof.
  intro Hle. unfold np.clip1, Rmin, Rmax.
  destruct (Rle_dec v lo); destruct (Rle_dec _ hi); lra.
Qed.


(** Inside the byte range the conversion is the floor: nothing wraps. *)
Lemma to_uint8_floor (v : R) :
  0 <= v <= 255 ->
  np.to_uint8 v = Zfloor v /\ (0 <= Zfloor v <= 255)%Z.
Proof.
  intros [H0 H255].
  assert (Hlo : (0 <= Zfloor v)%Z) by (apply Zfloor_lub; exact H0).
  assert (Hhi : (Zfloor v <= 255)%Z).
  { apply le_IZR. pose proof (Zfloor_bound v) as [Hb _]. lra. }
  split; [|lia].
  unfold np.to_uint8, np.to_int.
  destruct (Rle_dec 0 v) as [_|Hn]; [|lra].
  apply Z.mod_small. lia.
Qed.

Lemma pixel_floor (v : R) :
  pixel v = Zfloor (np.clip1 0 255 (np.clip1 0 1 v * 255))
  /\ (0 <= pixel v <= 255)%Z.
Proof.
  unfold pixel.
  assert (Hb : 0 <= np.clip1 0 255 (np.clip1 0 1 v * 255) <= 255)
    by (apply clip1_bounds; lra).
  destruct (to_uint8_floor _ Hb) as [-> Hr]. split; [reflexivity | exact Hr].
Qed.




End Statistics.

(** C7, as the code has it.  For an input of shape [H, W, C] in the
    channels-last convention, [deprocess_image] returns an array of the same
    shape [H, W, C]: the same spatial dimensions and the same number of
    channels as the input (three exactly when the input has three), every
    element an unsigned 8-bit value in [0, 255]. *)
Theorem deprocess_image_shape (K : backend) (x : ndarray) (w : world)
    (h wd c : nat) :
  image_data_format K = channels_last ->
  full x w ->
  shape x = [h; wd; c] ->
  exists w' img,
    deprocess_image K x w = (w', inr img)
    /\ ishape img = [h; wd; c]
    /\ length (idata img) = (h * wd * c)%nat
    /\ Forall (fun z => (0 <= z <= 255)%Z) (idata img).
Proof.
  intros Hfmt [Hv Hfull] Hshape.
  destruct (deprocess_image_run K x w Hv)
    as (w' & r & Hrun & _ & _ & _ & _ & _ & Hlast & _).
  specialize (Hlast Hfmt). subst r.
  exists w'. eexists. split; [exact Hrun|]. cbn [ishape idata].
  split; [exact Hshape|]. split.
  - rewrite length_map, shifted_length, Hfull, Hshape. simpl. lia.
  - apply Forall_forall. intros z Hz.
    apply in_map_iff in Hz. destruct Hz as (v & <- & _).
    apply pixel_floor.
Qed.

Lemma deprocess_image_shape_witness :
  exists w' img,
    deprocess_image default_backend rgb_array rgb_world = (w', inr img)
    /\ ishape img = [1; 2; 3]%nat
    /\ length (idata img) = (1 * 2 * 3)%nat
    /\ Forall (fun z => (0 <= z <= 255)%Z) (idata img).
Proof.
  apply (deprocess_image_shape default_backend rgb_array rgb_world 1 2 3).
  - reflexivity.
  - split; [unfold valid; simpl; lia | reflexivity].
  - reflexivity.
Defined.

(** C7, as stated, fails on an input with one channel: the array returned
    has one channel, not three. *)
Lemma deprocess_image_channels_counterexample :
  image_data_format default_backend = channels_last
  /\ full gray_array gray_world
  /\ shape gray_array = [1; 1; 1]%nat
  /\ exists w' img,
       deprocess_image default_backend gray_array gray_world = (w', inr img)
       /\ nth 2 (ishape img) 0%nat = 1%nat
       /\ nth 2 (ishape img) 0%nat <> 3%nat.
Proof.
  assert (Hv : valid gray_array gray_world) by (unfold valid; simpl; lia).
  split; [reflexivity|]. split; [split; [exact Hv | reflexivity]|].
  split; [reflexivity|].
  destruct (deprocess_image_run default_backend gray_array gray_world Hv)
    as (w' & r & Hrun & _ & _ & _ & _ & _ & Hlast & _).
  specialize (Hlast eq_refl). subst r.
  exists w'. eexists. split; [exact Hrun|]. cbn [ishape shape gray_array nth].
  split; [reflexivity | discriminate].
Qed.





(** Where the binary64 mean is the common value the byte is 127, as in exact
    arithmetic. *)
Lemma deprocess_image64_exact_mean :
  deprocess_image64 epsilon64 (repeat 7%float 3) = repeat 127%Z 3.
Proof. vm_compute. reflexivity. Qed.







(** ** The ascent driver *)

Section Ascent.

Variable K : backend.
Variable H : host.

Lemma update_beyond {A} (i : nat) (v : A) (l : list A) :
  (length l <= i)%nat -> update i v l = l.
Proof.
  revert i. induction l as [|a l IH]; intros [|i] Hi; simpl in *;
    try reflexivity; try lia.
  f_equal. apply IH. lia.
Qed.

(** Writing through any array object as many elements as it sees. *)
Lemma contents_store_any (x : ndarray) (d : list R) (w : world) :
  length d = length (contents x w) -> contents x (store x d w) = d.
Proof.
  intro Hl.
  destruct (Nat.lt_ge_cases (buf x) (length (heap w))) as [Hv|Hnv].
  - apply contents_store; assumption.
  - assert (He : contents x w = []).
    { unfold contents. rewrite nth_overflow by exact Hnv. apply firstn_nil. }
    rewrite He in Hl. destruct d; [|discriminate].
    unfold contents, store. cbn [heap].
    rewrite update_beyond by exact Hnv. exact He.
Qed.

Lemma iterate_grads_length (l : layer) (f : nat) (x : list R) :
  length (snd (iterate K l f x)) = length x.
Proof.
  unfold iterate. cbn [snd]. rewrite normalize_length, length_map, length_seq.
  reflexivity.
Qed.

Lemma ascent_step_length (step : R) (l : layer) (f : nat) (x : list R) :
  length (ascent_step step x (snd (iterate K l f x))) = length x.
Proof.
  unfold ascent_step. apply zip_with_length.
  rewrite length_map, iterate_grads_length. reflexivity.
Qed.

Lemma evals_app (a b : list event) : evals (a ++ b) = evals a ++ evals b.
Proof.
  induction a as [|[s|x lo g|p i] a IH]; simpl; rewrite ?IH; reflexivity.
Qed.

Lemma saves_app (a b : list event) : saves (a ++ b) = saves a ++ saves b.
Proof.
  induction a as [|[s|x lo g|p i] a IH]; simpl; rewrite ?IH; reflexivity.
Qed.

Lemma events_since_app (w w' : world) (tr : list event) :
  log w' = log w ++ tr -> events_since w w' = tr.
Proof.
  intro Hl. unfold events_since. rewrite Hl.
  rewrite skipn_app, skipn_all, Nat.sub_diag. reflexivity.
Qed.

(** What a run of the ascent loop does to the world and what it gives. *)
Lemma ascent_loop_run (l : layer) (f : nat) (x : ndarray) (step : R)
    (range : list nat) :
  forall (lv : option R) (w : world),
  exists w' tr,
    ascent_loop K H l f x step range lv w
    = (w', inr (last_loss lv (evals tr)))
    /\ log w' = log w ++ tr
    /\ saves tr = []
    /\ ascent K l f step (length range) (contents x w) (evals tr) (contents x w')
    /\ length (heap w') = length (heap w)
    /\ rng w' = rng w /\ clock w' = clock w.
Proof.
  induction range as [|i range IH]; intros lv w.
  - exists w, []. cbn [ascent_loop evals last_loss fold_left length].
    split; [reflexivity|]. split; [rewrite app_nil_r; reflexivity|].
    split; [reflexivity|]. split; [constructor|].
    repeat split.
  - cbn [ascent_loop length]. unfold call_iterate.
    rewrite bind_assoc, bind_read, bind_assoc, bind_emit, bind_ret, bind_iadd.
    set (d := contents x w).
    set (r := iterate K l f d).
    set (w1 := {| heap := heap w; log := log w ++ [Eval d (fst r) (snd r)];
                  rng := rng w; clock := clock w |}).
    change (contents x w1) with d.
    fold (ascent_step step d (snd r)).
    set (w2 := store x (ascent_step step d (snd r)) w1).
    assert (H2 : contents x w2 = ascent_step step d (snd r)).
    { apply contents_store_any. change (contents x w1) with d.
      apply ascent_step_length. }
    assert (L2 : length (heap w2) = length (heap w))
      by (unfold w2, store; cbn [heap]; apply update_length).
    destruct (Rle_dec (fst r) 0) as [Hle|Hgt].
    + unfold print. rewrite bind_emit.
      eexists.
      exists [Eval d (fst r) (snd r);
              Print ("Skipping filter " ++ str_int f ++ ", loss "
                     ++ float_str H (fst r))%string].
      split; [reflexivity|]. cbn [log heap rng clock].
      split; [change (log w2) with (log w1); unfold w1; cbn [log];
              rewrite <- app_assoc; reflexivity|].
      split; [reflexivity|]. split.
      * cbn [evals].
        change (contents x _) with (contents x w2). rewrite H2.
        apply ascent_break. exact Hle.
      * split; [exact L2|]. split; reflexivity.
    + destruct (IH (Some (fst r)) w2) as (w' & tr & Hrun & Hlog & Hsv & Hasc & Hh & Hr & Hc).
      exists w', (Eval d (fst r) (snd r) :: tr).
      split; [rewrite Hrun; reflexivity|].
      split; [rewrite Hlog; change (log w2) with (log w1); unfold w1; cbn [log];
              rewrite <- app_assoc; reflexivity|].
      split; [exact Hsv|]. split.
      * cbn [evals]. apply ascent_next; [exact Hgt|].
        fold r. rewrite <- H2. exact Hasc.
      * split; [rewrite Hh; exact L2|]. split; [rewrite Hr | rewrite Hc]; reflexivity.
Qed.

(** A run of at least one iteration: the evaluations before the last one
    gave a positive loss, and a run that ends early ends on a loss that is
    not positive. *)
Lemma ascent_shape (l : layer) (f : nat) (step : R) (n : nat) (x x' : list R)
    (ev : list evaluation) :
  ascent K l f step (S n) x ev x' ->
  exists pre e,
    ev = pre ++ [e]
    /\ Forall (fun e' => ~ eval_loss e' <= 0) pre
    /\ (length pre <= n)%nat
    /\ ((length pre < n)%nat -> eval_loss e <= 0)
    /\ e = (eval_input e, fst (iterate K l f (eval_input e)),
            snd (iterate K l f (eval_input e)))
    /\ x' = ascent_step step (eval_input e) (eval_grads e).
Proof.
  revert x ev. induction n as [|n IH]; intros x ev Hasc.
  - inversion Hasc as [|n0 x0 Hle|n0 x0 ev0 x0' Hgt Hrest]; subst.
    + exists [], (x, fst (iterate K l f x), snd (iterate K l f x)).
      repeat split; auto; intro Hlt; simpl in Hlt; lia.
    + inversion Hrest; subst.
      exists [], (x, fst (iterate K l f x), snd (iterate K l f x)).
      repeat split; auto; intro Hlt; simpl in Hlt; lia.
  - inversion Hasc as [|n0 x0 Hle|n0 x0 ev0 x0' Hgt Hrest]; subst.
    + exists [], (x, fst (iterate K l f x), snd (iterate K l f x)).
      repeat split; auto; simpl; lia.
    + destruct (IH _ _ Hrest) as (pre & e & -> & Hpre & Hlen & Hearly & He & Hx').
      exists ((x, fst (iterate K l f x), snd (iterate K l f x)) :: pre), e.
      split; [reflexivity|]. split; [constructor; [exact Hgt | exact Hpre]|].
      split; [simpl; lia|]. split; [intro Hlt; apply Hearly; simpl in Hlt; lia|].
      split; [exact He | exact Hx'].
Qed.

End Ascent.

Section Filters.

Variable K : backend.
Variable H : host.

Lemma bind_ok {A B} (m : M A) (k : A -> M B) (w w' : world) (a : A) :
  m w = (w', inr a) -> bind m k w = k a w'.
Proof. intro Hm. unfold bind. rewrite Hm. reflexivity. Qed.

Lemma bind_error {A B} (m : M A) (k : A -> M B) (w w' : world) (e : pyerror) :
  m w = (w', inl e) -> bind m k w = (w', inl e).
Proof. intro Hm. unfold bind. rewrite Hm. reflexivity. Qed.

Lemma bind_np_random {B} (s : list nat) (k : ndarray -> M B) (w : world) :
  bind (np_random H s) k w
  = k {| buf := length (heap w); shape := s |}
      (push (map (random_stream H) (seq (rng w) (np.size s)))
         {| heap := heap w; log := log w;
            rng := (rng w + np.size s)%nat; clock := clock w |}).
Proof. reflexivity. Qed.

Lemma last_loss_last (lv : option R) (pre : list evaluation) (e : evaluation) :
  last_loss lv (pre ++ [e]) = Some (eval_loss e).
Proof. unfold last_loss. rewrite fold_left_app. reflexivity. Qed.

(** What the body of the loop over the filters does for one filter. *)
Lemma process_filter_run (l : layer) (iw ih ic : nat)
    (kept : list (uint8_array * R)) (f : nat) (w : world) :
  exists w' tr kept' x0 x' pre e,
    process_filter K H l iw ih ic kept f w = (w', inr kept')
    /\ log w' = log w ++ tr
    /\ saves tr = []
    /\ clock w' = clock w
    /\ ascent K l f 1 20 x0 (evals tr) x'
    /\ evals tr = pre ++ [e]
    /\ (eval_loss e > 0 -> exists img, kept' = kept ++ [(img, eval_loss e)])
    /\ (~ eval_loss e > 0 -> kept' = kept).
Proof.
  unfold process_filter, print. rewrite bind_emit, bind_np_random.
  cbn [heap log rng clock].
  set (wa := push _ _).
  set (r0 := {| buf := length (heap w); shape := [1%nat; iw; ih; ic] |}).
  rewrite bind_read, bind_alloc. cbn [shape r0].
  set (x := {| buf := length (heap wa); shape := [1%nat; iw; ih; ic] |}).
  set (wb := push _ wa).
  destruct (ascent_loop_run K H l f x 1 (seq 0 20) None wb)
    as (wc & tr & Hrun & Hlog & Hsv & Hasc & Hh & Hr & Hc).
  rewrite (bind_ok _ _ _ _ _ Hrun).
  change (length (seq 0 20)) with 20%nat in Hasc.
  destruct (ascent_shape K l f 1 19 _ _ _ Hasc)
    as (pre & e & Hev & _ & _ & _ & _ & _).
  rewrite Hev, last_loss_last.
  assert (Hlogc : log wc
                  = log w ++ Print ("Processing filter " ++ str_int f)%string :: tr).
  { rewrite Hlog. unfold wb, wa, push. cbn [log].
    rewrite <- app_assoc. reflexivity. }
  assert (Hclk : clock wc = clock w) by (rewrite Hc; reflexivity).
  destruct (Rgt_dec (eval_loss e) 0) as [Hpos|Hnpos].
  - unfold getitem0. cbn [shape x]. rewrite bind_ret.
    set (v := {| buf := buf x; shape := [iw; ih; ic] |}).
    assert (Hv : valid v wc).
    { unfold valid. rewrite Hh. unfold wb, push. cbn [heap buf v x].
      rewrite length_app. simpl. lia. }
    destruct (deprocess_image_run K v wc Hv)
      as (wd & r & Hd & _ & _ & Hlogd & _ & Hclkd & _ & H3).
    destruct (H3 iw ih ic eq_refl) as [img ->].
    rewrite (bind_ok _ _ _ _ _ Hd), Hev in *.
    exists wd, (Print ("Processing filter " ++ str_int f)%string :: tr),
      (kept ++ [(img, eval_loss e)]), (contents x wb), (contents x wc), pre, e.
    split; [reflexivity|]. split; [rewrite Hlogd; exact Hlogc|].
    split; [exact Hsv|]. split; [rewrite Hclkd; exact Hclk|].
    cbn [evals]. rewrite Hev. split; [exact Hasc|]. split; [reflexivity|].
    split; [intros _; exists img; reflexivity | intro Hn; contradiction].
  - exists wc, (Print ("Processing filter " ++ str_int f)%string :: tr),
      kept, (contents x wb), (contents x wc), pre, e.
    split; [reflexivity|]. split; [exact Hlogc|].
    split; [exact Hsv|]. split; [exact Hclk|].
    cbn [evals]. split; [exact Hasc|]. split; [exact Hev|].
    split; [intro Hp; contradiction | reflexivity].
Qed.

End Filters.

Section AscentFacts.

Variable K : backend.

(** An evaluation whose loss is not positive is the last one of its run, and
    the run ends with the tensor updated from that evaluation. *)
Lemma ascent_stops (l : layer) (f : nat) (step : R) (n : nat) (x x' : list R)
    (ev : list evaluation) :
  ascent K l f step n x ev x' ->
  forall pre e post,
    ev = pre ++ e :: post ->
    eval_loss e <= 0 ->
    post = []
    /\ x' = ascent_step step (eval_input e) (eval_grads e)
    /\ eval_loss e = fst (iterate K l f (eval_input e))
    /\ eval_grads e = snd (iterate K l f (eval_input e)).
Proof.
  induction 1 as [x|n x Hle|n x ev x' Hgt Hrest IH]; intros pre e post Hev He.
  - destruct pre; discriminate.
  - destruct pre as [|e0 pre].
    + injection Hev as <- <-. repeat split.
    + injection Hev as _ Hev. destruct pre; discriminate.
  - destruct pre as [|e0 pre].
    + injection Hev as <- _. contradiction.
    + injection Hev as _ Hev. apply (IH pre e post Hev He).
Qed.

End AscentFacts.

(** C3, as the code has it.  On an iteration whose evaluated loss is not
    positive the loop terminates early, with no further evaluation, but only
    after that iteration's gradient update has been applied: the final input
    tensor is the input at which the loss was evaluated plus the normalised
    gradient times the step. *)
Theorem early_stop_after_update (K : backend) (H : host) (l : layer) (f : nat)
    (x : ndarray) (step : R) (range : list nat) (lv : option R) (w : world) :
  exists w' r,
    ascent_loop K H l f x step range lv w = (w', inr r)
    /\ forall pre e post,
         evals (events_since w w') = pre ++ e :: post ->
         eval_loss e <= 0 ->
         post = []
         /\ r = Some (eval_loss e)
         /\ eval_loss e = fst (iterate K l f (eval_input e))
         /\ eval_grads e = snd (iterate K l f (eval_input e))
         /\ contents x w'
            = zip_with Rplus (eval_input e)
                (map (fun g => g * step) (eval_grads e)).
Proof.
  destruct (ascent_loop_run K H l f x step range lv w)
    as (w' & tr & Hrun & Hlog & _ & Hasc & _).
  exists w'. eexists. split; [exact Hrun|].
  rewrite (events_since_app w w' tr Hlog).
  intros pre e post Hev He.
  destruct (ascent_stops K l f step _ _ _ _ Hasc pre e post Hev He)
    as (-> & Hx' & Hl & Hg).
  split; [reflexivity|]. rewrite Hev.
  change (pre ++ [e]) with (pre ++ [e]). rewrite last_loss_last.
  split; [reflexivity|]. split; [exact Hl|]. split; [exact Hg | exact Hx'].
Qed.

(** C3, as stated, fails: on a filter whose loss is negative at the first
    evaluation the loop stops, and the final input tensor is not the input at
    which that loss was evaluated. *)
Lemma early_stop_counterexample :
  exists w' r e,
    ascent_loop default_backend example_host biased_layer 0 batch_array 1
      (seq 0 20) None gray_world = (w', r)
    /\ evals (events_since gray_world w') = [e]
    /\ eval_loss e <= 0
    /\ contents batch_array w' <> eval_input e.
Proof.
  destruct (ascent_loop_run default_backend example_host biased_layer 0
              batch_array 1 (seq 0 20) None gray_world)
    as (w' & tr & Hrun & Hlog & _ & Hasc & _).
  change (length (seq 0 20)) with 20%nat in Hasc.
  change (contents batch_array gray_world) with [0] in Hasc.
  assert (Hloss : fst (iterate default_backend biased_layer 0 [0]) = -200).
  { unfold iterate, np.sum. cbn. lra. }
  exists w'. eexists.
  exists ([0], fst (iterate default_backend biased_layer 0 [0]),
          snd (iterate default_backend biased_layer 0 [0])).
  split; [exact Hrun|]. rewrite (events_since_app _ _ _ Hlog).
  inversion Hasc as [|n x Hle|n x ev x' Hgt Hrest]; subst.
  - split; [reflexivity|].
    split; [unfold eval_loss; cbn [fst snd]; rewrite Hloss; lra|].
    unfold eval_input. cbn [fst].
    unfold iterate. cbn [snd length seq map output_grad biased_layer].
    rewrite normalize_unfold. unfold ascent_step. cbn [map zip_with].
    pose proof (normalize_denominator_pos default_backend [1]) as Hd.
    assert (He : 0 < epsilon default_backend) by (simpl; lra).
    specialize (Hd He).
    pose proof (Rinv_0_lt_compat _ Hd) as Hinv.
    set (D := rms [1] + epsilon default_backend) in *. clearbody D.
    intro Heq. injection Heq as Heq. unfold Rdiv in Heq. lra.
  - exfalso. apply Hgt. rewrite Hloss. lra.
Qed.

(** ** The layers *)

Section Layers.

Variable K : backend.
Variable H : host.

(** What the loop over the filters [a], ..., [a + n - 1] does.  The list
    [new] holds, for every filter the loop keeps, its index and the pair
    appended to the kept filters. *)
Lemma for_filters_run (l : layer) (iw ih ic : nat) (n : nat) :
  forall (a : nat) (kept : list (uint8_array * R)) (w : world),
  exists w' tr new,
    for_filters K H l iw ih ic (seq a n) kept w
    = (w', inr (kept ++ map snd new))
    /\ log w' = log w ++ tr
    /\ saves tr = []
    /\ clock w' = clock w
    /\ (n <> 0%nat -> evals tr <> [])
    /\ StronglySorted lt (map fst new)
    /\ Forall (fun p => (a <= fst p < a + n)%nat
                        /\ snd (snd p) > 0
                        /\ exists x, snd (snd p) = output_mean l (fst p) x) new
    /\ (forall f, (a <= f < a + n)%nat -> ~ In f (map fst new) ->
        exists x, output_mean l f x <= 0).
Proof.
  induction n as [|n IH]; intros a kept w.
  - exists w, [], []. cbn [seq for_filters map]. rewrite !app_nil_r.
    split; [reflexivity|]. split; [reflexivity|]. split; [reflexivity|].
    split; [reflexivity|]. split; [congruence|]. split; [constructor|].
    split; [constructor|]. intros f Hf. lia.
  - cbn [seq for_filters].
    destruct (process_filter_run K H l iw ih ic kept a w)
      as (w1 & tr1 & kept1 & x0 & x' & pre & e
          & Hrun1 & Hlog1 & Hsv1 & Hclk1 & Hasc & Hev & Hpos & Hneg).
    rewrite (bind_ok _ _ _ _ _ Hrun1).
    destruct (ascent_shape K l a 1 19 _ _ _ Hasc)
      as (pre' & e' & Hev' & _ & _ & _ & He & _).
    rewrite Hev in Hev'. apply app_inj_tail in Hev'. destruct Hev' as [<- <-].
    assert (Hloss : eval_loss e = output_mean l a (eval_input e)).
    { apply (f_equal eval_loss) in He. exact He. }
    destruct (IH (S a) kept1 w1)
      as (w' & tr2 & new2 & Hrun2 & Hlog2 & Hsv2 & Hclk2 & _ & Hsort & Hall & Hmiss).
    assert (Hlog : log w' = log w ++ (tr1 ++ tr2))
      by (rewrite Hlog2, Hlog1, app_assoc; reflexivity).
    assert (Hsv : saves (tr1 ++ tr2) = [])
      by (rewrite saves_app, Hsv1, Hsv2; reflexivity).
    assert (Hevne : evals (tr1 ++ tr2) <> []).
    { rewrite evals_app, Hev. intro E. apply app_eq_nil in E.
      destruct E as [E _]. apply app_eq_nil in E. destruct E as [_ E].
      discriminate. }
    assert (Hall' : Forall (fun p => (a <= fst p < a + S n)%nat
                        /\ snd (snd p) > 0
                        /\ exists x, snd (snd p) = output_mean l (fst p) x) new2).
    { eapply Forall_impl; [|exact Hall]. intros p (Hb & Hp & Hx).
      split; [lia|]. split; assumption. }
    destruct (Rgt_dec (eval_loss e) 0) as [Hp|Hn].
    + destruct (Hpos Hp) as [img Hk1].
      exists w', (tr1 ++ tr2), ((a, (img, eval_loss e)) :: new2).
      split; [rewrite Hrun2, Hk1; cbn [map snd]; rewrite <- app_assoc; reflexivity|].
      split; [exact Hlog|]. split; [exact Hsv|].
      split; [rewrite Hclk2; exact Hclk1|]. split; [intros _; exact Hevne|].
      split; [|split].
      * cbn [map fst]. constructor; [exact Hsort|].
        apply Forall_forall. intros i Hi. apply in_map_iff in Hi.
        destruct Hi as (p & <- & Hin). rewrite Forall_forall in Hall.
        destruct (Hall p Hin) as (Hb & _). lia.
      * constructor; [|exact Hall']. cbn [fst snd].
        split; [lia|]. split; [exact Hp|]. exists (eval_input e). exact Hloss.
      * intros f Hf Hnin. cbn [map fst] in Hnin.
        apply Hmiss; [|intro Hin; apply Hnin; right; exact Hin].
        assert (f <> a) by (intro E; apply Hnin; left; symmetry; exact E). lia.
    + exists w', (tr1 ++ tr2), new2.
      split; [rewrite Hrun2, (Hneg Hn); reflexivity|].
      split; [exact Hlog|]. split; [exact Hsv|].
      split; [rewrite Hclk2; exact Hclk1|]. split; [intros _; exact Hevne|].
      split; [exact Hsort|]. split; [exact Hall'|].
      intros f Hf Hnin.
      destruct (Nat.eq_dec f a) as [->|Hne].
      * exists (eval_input e). rewrite <- Hloss. lra.
      * apply Hmiss; [lia | exact Hnin].
Qed.

(** What the loop over the kept filters writes: the image at position [k]
    of the list goes to a file named after [k], at the k-th time stamp. *)
Lemma save_images_run (out_dir nm : pystr) (items : list (uint8_array * R)) :
  forall (a : nat) (w : world),
  exists w',
    save_images H out_dir nm (combine (seq a (length items)) items) w
    = (w', inr tt)
    /\ clock w' = (clock w + length items)%nat
    /\ log w'
       = log w
         ++ map (fun p =>
                   ImSave (file_name H out_dir (now_str H (clock w + (fst p - a)))
                             nm (fst p) (snd (snd p)))
                     {| ishape := np.squeeze (ishape (fst (snd p)));
                        idata := idata (fst (snd p)) |})
              (combine (seq a (length items)) items).
Proof.
  induction items as [|[image loss] items IH]; intros a w.
  - exists w. cbn. rewrite app_nil_r. repeat split. lia.
  - cbn [length seq combine save_images].
    unfold now_strftime at 1. unfold bind at 1. rewrite bind_emit.
    match goal with |- context [save_images _ _ _ _ ?w0] => set (w1 := w0) end.
    destruct (IH (S a) w1) as (w' & Hrun & Hclk & Hlog).
    exists w'. split; [exact Hrun|].
    split; [rewrite Hclk; unfold w1; cbn [clock]; lia|].
    rewrite Hlog. unfold w1. cbn [log clock map fst snd].
    rewrite <- app_assoc. cbn [app]. f_equal. f_equal.
    + rewrite Nat.sub_diag, Nat.add_0_r. reflexivity.
    + apply map_ext_in. intros [k [im lo]] Hin. cbn [fst snd].
      apply in_combine_l in Hin. apply in_seq in Hin.
      replace (S (clock w) + (k - S a))%nat with (clock w + (k - a))%nat by lia.
      reflexivity.
Qed.

Lemma combine_map_r {A B C} (g : B -> C) (l1 : list A) (l2 : list B) :
  combine l1 (map g l2) = map (fun q => (fst q, g (snd q))) (combine l1 l2).
Proof.
  revert l2. induction l1 as [|a l1 IH]; intros [|b l2]; simpl; try reflexivity.
  f_equal. apply IH.
Qed.

(** In a strictly increasing list of filter indices the position of an
    index is at most the index, and where both agree they agree at every
    earlier position. *)
Lemma sorted_rank (l : list nat) :
  forall a : nat,
  StronglySorted lt l -> Forall (le a) l ->
  forall k fi, nth_error l k = Some fi ->
    (a + k <= fi)%nat
    /\ (fi = (a + k)%nat ->
        forall j, (j <= k)%nat -> nth_error l j = Some (a + j)%nat).
Proof.
  induction l as [|x l IH]; intros a Hs Ha k fi Hk.
  - destruct k; discriminate.
  - apply StronglySorted_inv in Hs. destruct Hs as [Hs Hx].
    apply Forall_inv in Ha.
    destruct k as [|k]; cbn [nth_error] in Hk.
    + injection Hk as <-. split; [lia|].
      intros E j Hj. assert (j = 0)%nat as -> by lia.
      cbn [nth_error]. f_equal. lia.
    + assert (Hx' : Forall (le (S x)) l)
        by (eapply Forall_impl; [|exact Hx]; intros; lia).
      destruct (IH (S x) Hs Hx' k fi Hk) as [Hle Heq].
      split; [lia|]. intros E j Hj.
      assert (x = a) by lia. subst x.
      destruct j as [|j]; cbn [nth_error].
      * f_equal. lia.
      * rewrite (Heq ltac:(lia) j ltac:(lia)). f_equal. lia.
Qed.

(** What the loop body does for a convolution layer. *)
Lemma conv_layer_run (m : model) (out_dir : pystr) (l : layer) (w : world)
    (s0 : list nat) (ws : list (list nat)) (cnt : nat) (s' : list nat)
    (iw ih ic : nat) :
  type_name l = "Conv2D"%string ->
  is_ascii (name l) = true ->
  weights_shapes l = s0 :: ws ->
  rev s0 = cnt :: s' ->
  firstn 3 (skipn 1 (input_shape m)) = [iw; ih; ic] ->
  exists w' tr new,
    layer_body K H m out_dir l w = (w', inr tt)
    /\ log w' = log w ++ tr
    /\ (cnt <> 0%nat -> evals tr <> [])
    /\ saves tr
       = map (fun q =>
                (file_name H out_dir (now_str H (clock w + fst q)) (name l)
                   (fst q) (snd (snd (snd q))),
                 squeezed (fst (snd (snd q)))))
           (enumerate new)
    /\ StronglySorted lt (map fst new)
    /\ Forall (fun p => (fst p < cnt)%nat
                        /\ snd (snd p) > 0
                        /\ exists x, snd (snd p) = output_mean l (fst p) x) new
    /\ (forall f, (f < cnt)%nat -> ~ In f (map fst new) ->
        exists x, output_mean l f x <= 0).
Proof.
  intros Htype Hascii Hws Hrev Hshape.
  unfold layer_body. rewrite Htype.
  change (is_model "Conv2D"%string) with false. cbv iota.
  change (dict_get (process_layer_functions K H) "Conv2D"%string)
    with (Some (process_conv_2d_layer K H)).
  rewrite Hascii, bind_ret.
  unfold process_conv_2d_layer. rewrite Hws, Hrev, Hshape.
  rewrite !bind_assoc, bind_ret. unfold print. rewrite bind_assoc, bind_emit.
  match goal with |- context [bind (for_filters _ _ _ _ _ _ _ _) _ ?w0] =>
    set (w1 := w0) end.
  destruct (for_filters_run l iw ih ic cnt 0 [] w1)
    as (w2 & tr & new & Hrun & Hlog & Hsv & Hclk & Hev & Hsort & Hall & Hmiss).
  rewrite (bind_ok _ _ _ _ _ Hrun). cbn [app].
  unfold enumerate at 1.
  destruct (save_images_run out_dir (name l) (map snd new) 0 w2)
    as (w3 & Hrun3 & _ & Hlog3).
  exists w3. eexists. exists new. split; [exact Hrun3|].
  split; [rewrite Hlog3, Hlog; unfold w1; cbn [log];
          rewrite <- !app_assoc; reflexivity|].
  split; [|split; [|split; [exact Hsort|split]]].
  - intro Hc. cbn [app evals]. rewrite evals_app. intro E.
    apply app_eq_nil in E. destruct E as [E _]. exact (Hev Hc E).
  - cbn [app saves]. rewrite saves_app, Hsv. cbn [app].
    rewrite Hclk. unfold w1. cbn [clock].
    unfold enumerate. rewrite length_map, combine_map_r, map_map.
    set (items := combine (seq 0 (length new)) new). clearbody items.
    unfold squeezed. cbn [fst snd].
    induction items as [|q items IHi]; [reflexivity|].
    cbn [map saves]. rewrite IHi, Nat.sub_0_r. reflexivity.
  - eapply Forall_impl; [|exact Hall]. intros p (Hb & Hp & Hx).
    split; [lia|]. split; assumption.
  - intros f Hf. apply Hmiss. lia.
Qed.

Lemma bind_ext {A B} (m : M A) (k1 k2 : A -> M B) (w : world) :
  (forall a w', k1 a w' = k2 a w') -> bind m k1 w = bind m k2 w.
Proof.
  intro Hk. unfold bind. destruct (m w) as [w1 [e|a]]; [reflexivity|apply Hk].
Qed.

Lemma for_layers_app (m : model) (out_dir : pystr) (pre rest : list layer)
    (w : world) :
  for_layers K H m out_dir (pre ++ rest) w
  = bind (for_layers K H m out_dir pre)
      (fun _ => for_layers K H m out_dir rest) w.
Proof.
  revert w. induction pre as [|l pre IH]; intro w.
  - reflexivity.
  - cbn [app for_layers]. rewrite bind_assoc.
    apply bind_ext. intros _ w1. apply IH.
Qed.

(** The loop body stops at a layer whose name is not ASCII. *)
Lemma layer_body_non_ascii (m : model) (out_dir : pystr) (l : layer) (w : world) :
  is_ascii (name l) = false ->
  layer_body K H m out_dir l w
  = (w, inl (if is_model (type_name l) then TypeError else AssertionError)).
Proof.
  intro Hn. unfold layer_body. destruct (is_model (type_name l)); [reflexivity|].
  rewrite Hn. reflexivity.
Qed.

(** A layer that is not a convolution layer leaves the world as it is,
    whether the loop body returns or raises. *)
Lemma layer_body_other (m : model) (out_dir : pystr) (l : layer) (w : world) :
  type_name l <> "Conv2D"%string ->
  fst (layer_body K H m out_dir l w) = w.
Proof.
  intro Ht. unfold layer_body. destruct (is_model (type_name l)); [reflexivity|].
  unfold process_layer_functions. cbn [dict_get].
  destruct (String.eqb "Conv2D" (type_name l)) eqn:E.
  - apply String.eqb_eq in E. congruence.
  - destruct (is_ascii (name l)); reflexivity.
Qed.

Lemma for_layers_other (m : model) (out_dir : pystr) (ls : list layer)
    (w : world) :
  Forall (fun l => type_name l <> "Conv2D"%string) ls ->
  fst (for_layers K H m out_dir ls w) = w.
Proof.
  induction 1 as [|l ls Hl Hls IH]; [reflexivity|].
  cbn [for_layers]. unfold bind.
  pose proof (layer_body_other m out_dir l w Hl) as Hb.
  destruct (layer_body K H m out_dir l w) as [w1 [e|[]]];
    cbn [fst] in Hb; subst w1.
  - reflexivity.
  - exact IH.
Qed.

End Layers.

(** The run of the loop body on the example layer: its first filter is
    skipped, its second filter is kept, and the only image written carries
    the index zero. *)
Lemma half_dead_run (m : model) (out_dir : pystr) (w : world) :
  input_shape m = [1; 1; 1; 1]%nat ->
  exists w' tr img,
    layer_body default_backend example_host m out_dir half_dead_layer w
    = (w', inr tt)
    /\ log w' = log w ++ tr
    /\ evals tr <> []
    /\ saves tr
       = [(file_name example_host out_dir (now_str example_host (clock w))
             "conv"%string 0 1, squeezed img)].
Proof.
  intro Hin.
  destruct (conv_layer_run default_backend example_host m out_dir
              half_dead_layer w [3; 3; 1; 2]%nat [[2%nat]] 2 [1; 3; 3]%nat 1 1 1)
    as (w' & tr & new & Hrun & Hlog & Hev & Hsv & Hsort & Hall & Hmiss);
    try reflexivity.
  { rewrite Hin. reflexivity. }
  assert (Hone : forall p, In p new -> fst p = 1%nat /\ snd (snd p) = 1).
  { intros p Hp. rewrite Forall_forall in Hall.
    destruct (Hall p Hp) as (Hb & Hpos & x & Hx).
    destruct (fst p) as [|[|k]]; cbn in Hx; [lra | split; [reflexivity | exact Hx] | lia]. }
  assert (Hmem : In 1%nat (map fst new)).
  { destruct (in_dec Nat.eq_dec 1%nat (map fst new)) as [Hi|Hni]; [exact Hi|].
    destruct (Hmiss 1%nat ltac:(lia) Hni) as [x Hx]. cbn in Hx. lra. }
  destruct new as [|p [|q new]].
  - destruct Hmem.
  - destruct p as [fi [img lo]].
    destruct (Hone _ (or_introl eq_refl)) as [Hfi Hlo]. cbn [fst snd] in Hfi, Hlo.
    subst fi lo.
    exists w', tr, img. split; [exact Hrun|]. split; [exact Hlog|].
    split; [apply Hev; discriminate|].
    rewrite Hsv. cbn. rewrite Nat.add_0_r. reflexivity.
  - exfalso. cbn [map] in Hsort.
    apply StronglySorted_inv in Hsort. destruct Hsort as [_ Hlt].
    apply Forall_inv in Hlt.
    destruct (Hone p (or_introl eq_refl)) as [Hp _].
    destruct (Hone q (or_intror (or_introl eq_refl))) as [Hq _].
    lia.
Qed.

(** C2, as the code has it.  For every convolution layer the loop body
    returns, and the file of every kept filter is named
    [{out_dir}/{timestamp}_{layer_name}_{k}_{loss}.png] where [k] is the
    position of the filter among the kept filters of the layer, counted from
    zero, and not its index [fi] within the layer (the index its loss was built
    from).  The position is at most the index, and it is the index only when
    no filter of the layer before it was skipped. *)
Theorem file_names_by_position (K : backend) (H : host) (m : model)
    (out_dir : pystr) (l : layer) (w : world)
    (s0 : list nat) (ws : list (list nat)) (cnt : nat) (s' : list nat)
    (iw ih ic : nat) :
  type_name l = "Conv2D"%string ->
  is_ascii (name l) = true ->
  weights_shapes l = s0 :: ws ->
  rev s0 = cnt :: s' ->
  firstn 3 (skipn 1 (input_shape m)) = [iw; ih; ic] ->
  exists w' (new : list (nat * (uint8_array * R))),
    layer_body K H m out_dir l w = (w', inr tt)
    /\ saves (events_since w w')
       = map (fun q =>
                (file_name H out_dir (now_str H (clock w + fst q)) (name l)
                   (fst q) (snd (snd (snd q))),
                 squeezed (fst (snd (snd q)))))
           (enumerate new)
    /\ Forall (fun p => (fst p < cnt)%nat
                        /\ snd (snd p) > 0
                        /\ exists x, snd (snd p) = output_mean l (fst p) x) new
    /\ (forall f, (f < cnt)%nat -> ~ In f (map fst new) ->
        exists x, output_mean l f x <= 0)
    /\ (forall k fi, nth_error (map fst new) k = Some fi ->
        (k <= fi)%nat
        /\ (fi = k ->
            forall j, (j <= k)%nat -> nth_error (map fst new) j = Some j)).
Proof.
  intros Htype Hascii Hws Hrev Hshape.
  destruct (conv_layer_run K H m out_dir l w s0 ws cnt s' iw ih ic
              Htype Hascii Hws Hrev Hshape)
    as (w' & tr & new & Hrun & Hlog & _ & Hsv & Hsort & Hall & Hmiss).
  exists w', new. split; [exact Hrun|].
  split; [rewrite (events_since_app w w' tr Hlog); exact Hsv|].
  split; [exact Hall|]. split; [exact Hmiss|].
  intros k fi Hk.
  assert (H0 : Forall (le 0) (map fst new))
    by (apply Forall_forall; intros; lia).
  exact (sorted_rank (map fst new) 0 Hsort H0 k fi Hk).
Qed.

Lemma file_names_by_position_witness :
  exists w' (new : list (nat * (uint8_array * R))),
    layer_body default_backend example_host conv_model "out"%string half_dead_layer
      (world_of []) = (w', inr tt)
    /\ saves (events_since (world_of []) w')
       = map (fun q =>
                (file_name example_host "out"%string
                   (now_str example_host (clock (world_of []) + fst q))
                   (name half_dead_layer) (fst q) (snd (snd (snd q))),
                 squeezed (fst (snd (snd q)))))
           (enumerate new).
Proof.
  destruct (file_names_by_position default_backend example_host conv_model
              "out"%string half_dead_layer (world_of [])
              [3; 3; 1; 2]%nat [[2%nat]] 2 [1; 3; 3]%nat 1 1 1
              eq_refl eq_refl eq_refl eq_refl eq_refl)
    as (w' & new & Hrun & Hsv & _).
  exists w', new. split; [exact Hrun | exact Hsv].
Defined.

(** C2, as stated, fails on a layer whose first filter is skipped and whose
    second filter is kept: the image of the filter of index one is written
    under the index zero. *)
Lemma file_name_index_counterexample :
  (forall x, output_mean half_dead_layer 0 x <= 0)
  /\ (forall x, output_mean half_dead_layer 1 x > 0)
  /\ exists w' img,
       process_layers default_backend example_host conv_model "out"%string
         (world_of []) = (w', inr tt)
       /\ saves (log w') = [("out/t0_conv_0_L.png"%string, img)]
       /\ "out/t0_conv_0_L.png"%string
          <> file_name example_host "out"%string "t0"%string "conv"%string 1 1.
Proof.
  split; [intro x; cbn; lra|]. split; [intro x; cbn; lra|].
  destruct (half_dead_run conv_model "out"%string (world_of []) eq_refl)
    as (w' & tr & img & Hrun & Hlog & _ & Hsv).
  exists w', (squeezed img).
  split; [|split].
  - unfold process_layers. cbn [layers conv_model for_layers].
    rewrite (bind_ok _ _ _ _ _ Hrun). reflexivity.
  - rewrite Hlog. cbn [log world_of app]. rewrite Hsv. reflexivity.
  - cbv [file_name float_str example_host]. discriminate.
Qed.

(** C8, as the code has it.  A run over a model with a layer whose name is
    not ASCII never returns normally.  The name is checked when the loop
    reaches the layer: when the layers before it have been processed without
    an error, the run aborts there, in the world those layers left, so that no
    ascent work is done for that layer or any later one.  The error is an
    assertion error, unless the layer is itself a model ([Model] or
    [Sequential]): then it is the [TypeError] of the recursive call, which
    comes before the check of the name.  When a layer before it raises, the
    run has ended there.  No ascent work at all is done, and the world is left
    as it was, when no convolution layer comes before it.  The error ends the
    whole run. *)
Theorem non_ascii_name_aborts (K : backend) (H : host) (m : model)
    (out_dir : pystr) (w : world) (pre : list layer) (bad : layer)
    (post : list layer) :
  layers m = pre ++ bad :: post ->
  is_ascii (name bad) = false ->
  (exists w' e, process_layers K H m out_dir w = (w', inl e))
  /\ (forall w1,
        for_layers K H m out_dir pre w = (w1, inr tt) ->
        process_layers K H m out_dir w
        = (w1, inl (if is_model (type_name bad)
                    then TypeError else AssertionError)))
  /\ (forall w1 e,
        for_layers K H m out_dir pre w = (w1, inl e) ->
        process_layers K H m out_dir w = (w1, inl e))
  /\ (Forall (fun l => type_name l <> "Conv2D"%string) pre ->
      exists e, process_layers K H m out_dir w = (w, inl e)).
Proof.
  intros Hl Hbad. unfold process_layers. rewrite Hl, for_layers_app.
  assert (Hstop : forall w1,
            for_layers K H m out_dir (bad :: post) w1
            = (w1, inl (if is_model (type_name bad)
                        then TypeError else AssertionError))).
  { intro w1. cbn [for_layers].
    apply bind_error. apply layer_body_non_ascii. exact Hbad. }
  split; [|split; [|split]].
  - destruct (for_layers K H m out_dir pre w) as [w1 [e|[]]] eqn:Hpre.
    + exists w1, e. apply bind_error. exact Hpre.
    + eexists. eexists. rewrite (bind_ok _ _ _ _ _ Hpre). apply Hstop.
  - intros w1 Hpre. rewrite (bind_ok _ _ _ _ _ Hpre). apply Hstop.
  - intros w1 e Hpre. apply bind_error. exact Hpre.
  - intro Hnone.
    pose proof (for_layers_other K H m out_dir pre w Hnone) as Hw.
    destruct (for_layers K H m out_dir pre w) as [w1 [e|[]]] eqn:Hpre;
      cbn [fst] in Hw; subst w1.
    + exists e. apply bind_error. exact Hpre.
    + eexists. rewrite (bind_ok _ _ _ _ _ Hpre). apply Hstop.
Qed.

Lemma non_ascii_name_aborts_witness :
  process_layers default_backend example_host accent_then_conv_model "out"%string
    (world_of []) = (world_of [], inl AssertionError)
  /\ process_layers default_backend example_host accent_nesting_model
       "out"%string (world_of []) = (world_of [], inl TypeError).
Proof.
  destruct (non_ascii_name_aborts default_backend example_host
              accent_then_conv_model "out"%string (world_of [])
              [] accent_layer [half_dead_layer] eq_refl eq_refl)
    as (_ & Hat & _).
  destruct (non_ascii_name_aborts default_backend example_host
              accent_nesting_model "out"%string (world_of [])
              [dense_layer] accent_nested_layer [half_dead_layer]
              eq_refl eq_refl)
    as (_ & Hnested & _).
  split.
  - exact (Hat (world_of []) eq_refl).
  - exact (Hnested (world_of []) eq_refl).
Defined.

(** C8, as stated, fails when a convolution layer comes before the layer
    whose name is not ASCII: the run aborts only after the ascent for the
    first layer has been done and its image written. *)
Lemma ascent_before_abort_counterexample :
  In accent_layer (layers conv_then_accent_model)
  /\ is_ascii (name accent_layer) = false
  /\ exists w',
       process_layers default_backend example_host conv_then_accent_model
         "out"%string (world_of []) = (w', inl AssertionError)
       /\ evals (log w') <> []
       /\ saves (log w') <> [].
Proof.
  split; [right; left; reflexivity|]. split; [reflexivity|].
  destruct (half_dead_run conv_then_accent_model "out"%string (world_of []) eq_refl)
    as (w' & tr & img & Hrun & Hlog & Hev & Hsv).
  exists w'. split; [|split].
  - unfold process_layers. cbn [layers conv_then_accent_model for_layers].
    rewrite (bind_ok _ _ _ _ _ Hrun).
    apply bind_error. apply layer_body_non_ascii. reflexivity.
  - rewrite Hlog. exact Hev.
  - rewrite Hlog. cbn [log world_of app]. rewrite Hsv. discriminate.
Qed.

(** * Further properties of the image postprocessor *)

Section PostprocessorFacts.

Lemma std_nonneg (d : list R) : 0 <= np.std d.
Proof. apply sqrt_pos. Qed.

Lemma inv_nonneg (r : R) : 0 <= r -> 0 <= / r.
Proof.
  intros [Hp|<-].
  - left. apply Rinv_0_lt_compat. exact Hp.
  - rewrite Rinv_0. lra.
Qed.

Lemma clip1_monotone (lo hi u v : R) :
  u <= v -> np.clip1 lo hi u <= np.clip1 lo hi v.
Proof.
  intro Huv. unfold np.clip1.
  apply Rle_min_compat_r. apply Rle_max_compat_r. exact Huv.
Qed.

Lemma pixel_monotone (u v : R) : u <= v -> (pixel u <= pixel v)%Z.
Proof.
  intro Huv.
  destruct (pixel_floor u) as [-> _]. destruct (pixel_floor v) as [-> _].
  apply Zfloor_le. apply clip1_monotone.
  pose proof (clip1_monotone 0 1 u v Huv). lra.
Qed.

End PostprocessorFacts.

Section PostprocessorStore.

Lemma update_update {A} (i : nat) (u v : A) (l : list A) :
  update i u (update i v l) = update i u l.
Proof.
  revert i. induction l as [|a l IH]; intros [|i]; simpl; try reflexivity.
  f_equal. apply IH.
Qed.

Lemma update_same {A} (i : nat) (d : A) (l : list A) :
  update i (nth i l d) l = l.
Proof.
  revert i. induction l as [|a l IH]; intros [|i]; simpl; try reflexivity.
  f_equal. apply IH.
Qed.

Lemma update_app_end {A} (u v : A) (l : list A) :
  update (length l) u (l ++ [v]) = l ++ [u].
Proof.
  induction l as [|a l IH]; simpl; [reflexivity|]. f_equal. exact IH.
Qed.

Lemma skipn_tail (n : nat) (c old : list R) :
  length c = length (firstn n old) ->
  skipn n (c ++ skipn n old) = skipn n old
  /\ firstn n (c ++ skipn n old) = c.
Proof.
  intro Hl. rewrite length_firstn in Hl.
  destruct (Nat.le_gt_cases n (length old)) as [Hle|Hgt].
  - assert (Hc : length c = n) by lia. split.
    + rewrite skipn_app, Hc, Nat.sub_diag, skipn_all2 by lia. reflexivity.
    + rewrite firstn_app, Hc, Nat.sub_diag, firstn_all2 by lia.
      simpl. apply app_nil_r.
  - rewrite (skipn_all2 old) by lia. rewrite app_nil_r. split.
    + apply skipn_all2. lia.
    + apply firstn_all2. lia.
Qed.

(** A store through [x] after earlier stores through [x]: only the part of
    the buffer the array sees is replaced. *)
Lemma store_chain (x : ndarray) (w0 w : world) (c d : list R) :
  valid x w0 ->
  length c = length (contents x w0) ->
  heap w = update (buf x)
             (c ++ skipn (np.size (shape x)) (nth (buf x) (heap w0) []))
             (heap w0) ->
  contents x w = c
  /\ heap (store x d w)
     = update (buf x)
         (d ++ skipn (np.size (shape x)) (nth (buf x) (heap w0) []))
         (heap w0).
Proof.
  intros Hv Hl Hh. unfold contents, store in *. cbn [heap]. rewrite Hh.
  rewrite nth_update_same by exact Hv.
  destruct (skipn_tail _ c _ Hl) as [Hs Hf].
  split; [exact Hf|]. rewrite Hs. apply update_update.
Qed.

Lemma heap_start (x : ndarray) (w : world) :
  heap w = update (buf x)
             (contents x w ++ skipn (np.size (shape x)) (nth (buf x) (heap w) []))
             (heap w).
Proof.
  unfold contents. rewrite firstn_skipn. symmetry. apply update_same.
Qed.

Lemma transpose120_length (d0 d1 d2 : nat) (a : list R) :
  length (np.transpose120 d0 d1 d2 a) = np.size [d1; d2; d0]%nat.
Proof.
  unfold np.transpose120, np.size. cbn [fold_right].
  rewrite (flat_map_constant_length (c := (d2 * d0)%nat)).
  - rewrite length_seq. lia.
  - intros j _. rewrite (flat_map_constant_length (c := d0)).
    + rewrite length_seq. reflexivity.
    + intros k _. rewrite length_map, length_seq. reflexivity.
Qed.

(** An element of a concatenation of chunks of one length. *)
Lemma nth_flat_map_uniform {A B} (f : A -> list B) (c : nat) (da : A) (db : B)
    (l : list A) :
  (forall a, length (f a) = c) ->
  forall q r, (q < length l)%nat -> (r < c)%nat ->
  nth (q * c + r) (flat_map f l) db = nth r (f (nth q l da)) db.
Proof.
  intro Hc. induction l as [|a l IH]; intros q r Hq Hr.
  - simpl in Hq. lia.
  - cbn [flat_map]. destruct q as [|q].
    + cbn [Nat.mul Nat.add nth]. apply app_nth1. rewrite Hc. exact Hr.
    + rewrite app_nth2 by (rewrite Hc; simpl; lia).
      rewrite Hc. replace (S q * c + r - c)%nat with (q * c + r)%nat by (simpl; lia).
      cbn [nth]. apply IH; [simpl in Hq; lia | exact Hr].
Qed.

(** The element of index [(j, k, i)] of the transposed array is the element
    of index [(i, j, k)] of the array. *)
Lemma transpose120_nth (d0 d1 d2 : nat) (a : list R) (i j k : nat) :
  (i < d0)%nat -> (j < d1)%nat -> (k < d2)%nat ->
  nth ((j * d2 + k) * d0 + i) (np.transpose120 d0 d1 d2 a) 0
  = nth ((i * d1 + j) * d2 + k) a 0.
Proof.
  intros Hi Hj Hk. unfold np.transpose120.
  replace ((j * d2 + k) * d0 + i)%nat with (j * (d2 * d0) + (k * d0 + i))%nat
    by lia.
  rewrite (nth_flat_map_uniform _ (d2 * d0)%nat 0%nat 0).
  - rewrite seq_nth by exact Hj. cbn [Nat.add].
    rewrite (nth_flat_map_uniform _ d0 0%nat 0).
    + rewrite seq_nth by exact Hk. cbn [Nat.add].
      set (g := fun i0 : nat => nth ((i0 * d1 + j) * d2 + k) a 0).
      rewrite (nth_indep _ 0 (g 0%nat))
        by (rewrite length_map, length_seq; exact Hi).
      rewrite (map_nth g), seq_nth by exact Hi. reflexivity.
    + intro k0. rewrite length_map, length_seq. reflexivity.
    + rewrite length_seq. exact Hk.
    + exact Hi.
  - intro j0. rewrite (flat_map_constant_length (c := d0)).
    + rewrite length_seq. reflexivity.
    + intros k0 _. rewrite length_map, length_seq. reflexivity.
  - rewrite length_seq. exact Hj.
  - nia.
Qed.

End PostprocessorStore.

Section PostprocessorRun.

Variable K : backend.

(** The whole effect of a call of [deprocess_image]: what it gives, the
    buffer of its argument and the buffers it allocates. *)
Lemma deprocess_image_full (x : ndarray) (w : world) :
  valid x w ->
  exists w' extra,
    deprocess_image K x w
    = (w', deprocess_result K (shape x) (shifted K (contents x w)))
    /\ heap w'
       = update (buf x)
           (shifted K (contents x w)
            ++ skipn (np.size (shape x)) (nth (buf x) (heap w) []))
           (heap w) ++ extra
    /\ extra <> []
    /\ log w' = log w /\ rng w' = rng w /\ clock w' = clock w.
Proof.
  intro Hv. unfold deprocess_image.
  set (d := contents x w).
  set (tl := skipn (np.size (shape x)) (nth (buf x) (heap w) [])).
  rewrite bind_read, bind_inplace. fold d.
  set (c := map (fun v => v - np.mean d) d).
  set (w1 := store x c w).
  destruct (store_chain x w w d c Hv eq_refl (heap_start x w)) as [_ Hh1].
  fold w1 tl in Hh1.
  assert (Lc : length c = length (contents x w)) by (unfold c; apply length_map).
  rewrite bind_read, bind_inplace.
  set (c2 := map (fun v => v / (np.std (contents x w1) + epsilon K)) (contents x w1)).
  set (w2 := store x c2 w1).
  destruct (store_chain x w w1 c c2 Hv Lc Hh1) as [H1 Hh2]. fold w2 tl in Hh2.
  assert (Lc2 : length c2 = length (contents x w))
    by (unfold c2; rewrite length_map, H1; exact Lc).
  rewrite bind_inplace.
  set (c3 := map (fun v => v * 0.1) (contents x w2)).
  set (w3 := store x c3 w2).
  destruct (store_chain x w w2 c2 c3 Hv Lc2 Hh2) as [H2 Hh3]. fold w3 tl in Hh3.
  assert (Lc3 : length c3 = length (contents x w))
    by (unfold c3; rewrite length_map, H2; exact Lc2).
  rewrite bind_inplace.
  set (c4 := map (fun v => v + 0.5) (contents x w3)).
  set (w4 := store x c4 w3).
  destruct (store_chain x w w3 c3 c4 Hv Lc3 Hh3) as [H3 Hh4]. fold w4 tl in Hh4.
  assert (Lc4 : length c4 = length (contents x w))
    by (unfold c4; rewrite length_map, H3; exact Lc3).
  destruct (store_chain x w w4 c4 c4 Hv Lc4 Hh4) as [H4 _].
  assert (Hs : c4 = shifted K d).
  { unfold c4. rewrite H3. unfold c3. rewrite H2. unfold c2. rewrite H1.
    unfold shifted. fold c. rewrite !map_map. reflexivity. }
  assert (L4 : (length c4 <= np.size (shape x))%nat)
    by (rewrite <- H4; apply contents_length).
  rewrite bind_read, H4, bind_alloc.
  set (y := {| buf := length (heap w4); shape := shape x |}).
  set (w5 := push (np.clip c4 0 1) w4).
  assert (H5 : contents y w5 = np.clip c4 0 1).
  { apply contents_new. unfold np.clip. rewrite length_map. exact L4. }
  rewrite bind_inplace, H5.
  set (c6 := map (fun v => v * 255) (np.clip c4 0 1)).
  set (w6 := store y c6 w5).
  assert (H6 : contents y w6 = c6).
  { apply contents_store; [apply valid_new|].
    rewrite H5. unfold c6. apply length_map. }
  assert (Hh6 : exists e, heap w6 = heap w4 ++ [e]).
  { eexists. unfold w6, store. cbn [heap buf y w5 push].
    apply update_app_end. }
  destruct Hh6 as [e6 Hh6].
  unfold deprocess_result. rewrite <- Hs.
  destruct (image_data_format K).
  - change (shape y) with (shape x).
    destruct (shape x) as [|d0 [|d1 [|d2 [|d3 s]]]] eqn:Hshape;
      try (rewrite bind_raise; exists w6, [e6];
           split; [reflexivity|]; split; [rewrite Hh6, Hh4; reflexivity|];
           split; [discriminate|]; split; [reflexivity|];
           split; reflexivity).
    rewrite bind_assoc, bind_read, bind_alloc, bind_read, H6.
    rewrite contents_new
      by (rewrite transpose120_length; apply Nat.le_refl).
    eexists. exists [e6; np.transpose120 d0 d1 d2 c6].
    split; [reflexivity|]. cbn [heap push].
    split; [rewrite Hh6, Hh4, <- app_assoc; reflexivity|].
    split; [discriminate|]. split; [reflexivity|]. split; reflexivity.
  - rewrite bind_ret, bind_read, H6.
    exists w6, [e6]. split.
    + change (shape y) with (shape x). unfold c6, np.clip.
      rewrite !map_map. reflexivity.
    + split; [rewrite Hh6, Hh4; reflexivity|].
      split; [discriminate|]. split; [reflexivity|]. split; reflexivity.
Qed.

End PostprocessorRun.

Section PostprocessorProperties.

Lemma shifted_nth (K : backend) (d : list R) (i : nat) :
  (i < length d)%nat ->
  nth i (shifted K d) 0
  = (nth i d 0 - np.mean d) / (np.std d + epsilon K) * 0.1 + 0.5.
Proof.
  intro Hi. assert (Hd : d <> []) by (intro E; subst d; simpl in Hi; lia).
  unfold shifted. rewrite (std_centered d Hd), map_map.
  set (g := fun x => (x - np.mean d) / (np.std d + epsilon K) * 0.1 + 0.5).
  rewrite (nth_indep _ 0 (g 0)) by (rewrite length_map; exact Hi).
  rewrite (map_nth g). reflexivity.
Qed.

Lemma map_pixel_nth (s : list R) (i : nat) :
  (i < length s)%nat -> nth i (map pixel s) 0%Z = pixel (nth i s 0).
Proof.
  intro Hi. rewrite (nth_indep _ 0%Z (pixel 0)) by (rewrite length_map; exact Hi).
  apply map_nth.
Qed.

(** Under the channels-last format every byte of the output is computed
    from the element of the same index. *)
Lemma deprocess_image_bytes (K : backend) (x : ndarray) (w : world) :
  image_data_format K = channels_last ->
  valid x w ->
  exists w' img,
    deprocess_image K x w = (w', inr img)
    /\ ishape img = shape x
    /\ length (idata img) = length (contents x w)
    /\ forall i, (i < length (contents x w))%nat ->
         nth i (idata img) 0%Z
         = pixel ((nth i (contents x w) 0 - np.mean (contents x w))
                  / (np.std (contents x w) + epsilon K) * 0.1 + 0.5).
Proof.
  intros Hfmt Hv.
  destruct (deprocess_image_full K x w Hv) as (w' & extra & Hrun & _).
  unfold deprocess_result in Hrun. rewrite Hfmt in Hrun.
  exists w'. eexists. split; [exact Hrun|]. cbn [ishape idata].
  split; [reflexivity|]. split; [rewrite length_map; apply shifted_length|].
  intros i Hi. rewrite map_pixel_nth by (rewrite shifted_length; exact Hi).
  rewrite shifted_nth by exact Hi. reflexivity.
Qed.

End PostprocessorProperties.

(** X4.  Under the channels-last format [deprocess_image] keeps the order
    of the elements: an element that is not greater than another one never
    gets the greater byte. *)
Theorem deprocess_image_monotone (K : backend) (x : ndarray) (w : world) :
  0 <= epsilon K ->
  image_data_format K = channels_last ->
  valid x w ->
  exists w' img,
    deprocess_image K x w = (w', inr img)
    /\ forall i j,
         (i < length (contents x w))%nat -> (j < length (contents x w))%nat ->
         nth i (contents x w) 0 <= nth j (contents x w) 0 ->
         (nth i (idata img) 0 <= nth j (idata img) 0)%Z.
Proof.
  intros He Hfmt Hv.
  destruct (deprocess_image_bytes K x w Hfmt Hv)
    as (w' & img & Hrun & _ & _ & Hb).
  exists w', img. split; [exact Hrun|].
  intros i j Hi Hj Hij. rewrite (Hb i Hi), (Hb j Hj).
  apply pixel_monotone.
  assert (Hk : 0 <= / (np.std (contents x w) + epsilon K)).
  { apply inv_nonneg. pose proof (std_nonneg (contents x w)). lra. }
  unfold Rdiv.
  set (k := / (np.std (contents x w) + epsilon K)) in *.
  set (m := np.mean (contents x w)).
  assert (Hm : (nth i (contents x w) 0 - m) * k
               <= (nth j (contents x w) 0 - m) * k)
    by (apply Rmult_le_compat_r; [exact Hk | lra]).
  lra.
Qed.

Lemma deprocess_image_monotone_witness :
  exists w' img,
    deprocess_image default_backend rgb_array rgb_world = (w', inr img)
    /\ (nth 0 (idata img) 0 <= nth 5 (idata img) 0)%Z.
Proof.
  destruct (deprocess_image_monotone default_backend rgb_array rgb_world)
    as (w' & img & Hrun & Hm).
  - simpl. lra.
  - reflexivity.
  - unfold valid. simpl. lia.
  - exists w', img. split; [exact Hrun|].
    apply Hm; [simpl; lia | simpl; lia | simpl; lra].
Defined.

(** X6.  Under the channels-first format an array of shape [(C, H, W)]
    becomes an image of shape [(H, W, C)] with as many bytes, each in
    [0, 255]: the byte of index [(j, k, i)] is computed from the shifted value
    of index [(i, j, k)]. *)
Theorem deprocess_image_channels_first (K : backend) (x : ndarray) (w : world)
    (d0 d1 d2 : nat) :
  image_data_format K = channels_first ->
  full x w ->
  shape x = [d0; d1; d2] ->
  exists w' img,
    deprocess_image K x w = (w', inr img)
    /\ ishape img = [d1; d2; d0]
    /\ length (idata img) = (d0 * d1 * d2)%nat
    /\ Forall (fun z => (0 <= z <= 255)%Z) (idata img)
    /\ forall i j k, (i < d0)%nat -> (j < d1)%nat -> (k < d2)%nat ->
         nth ((j * d2 + k) * d0 + i) (idata img) 0%Z
         = pixel (nth ((i * d1 + j) * d2 + k) (shifted K (contents x w)) 0).
Proof.
  intros Hfmt [Hv Hfull] Hshape.
  destruct (deprocess_image_full K x w Hv) as (w' & extra & Hrun & _).
  unfold deprocess_result in Hrun. rewrite Hfmt, Hshape in Hrun.
  exists w'. eexists. split; [exact Hrun|]. cbn [ishape idata].
  set (s := shifted K (contents x w)).
  assert (Hls : length s = (d0 * d1 * d2)%nat).
  { unfold s. rewrite shifted_length, Hfull, Hshape. simpl. lia. }
  set (c6 := map (fun v => v * 255) (np.clip s 0 1)).
  assert (Hlt : length (np.transpose120 d0 d1 d2 c6) = (d0 * d1 * d2)%nat)
    by (rewrite transpose120_length; simpl; lia).
  split; [reflexivity|]. split; [|split].
  - unfold np.clip. rewrite !length_map. exact Hlt.
  - apply Forall_forall. intros z Hz. apply in_map_iff in Hz.
    destruct Hz as (v & <- & Hin). unfold np.clip in Hin.
    apply in_map_iff in Hin. destruct Hin as (u & <- & _).
    assert (Hb : 0 <= np.clip1 0 255 u <= 255) by (apply clip1_bounds; lra).
    destruct (to_uint8_floor _ Hb) as [-> Hr]. exact Hr.
  - intros i j k Hi Hj Hk.
    assert (Hidx : ((j * d2 + k) * d0 + i < d0 * d1 * d2)%nat).
    { assert (Hjk : (j * d2 + k + 1 <= d1 * d2)%nat) by nia.
      assert (((j * d2 + k + 1) * d0 <= d1 * d2 * d0)%nat)
        by (apply Nat.mul_le_mono_r; exact Hjk).
      lia. }
    assert (Hidx' : ((i * d1 + j) * d2 + k < d0 * d1 * d2)%nat).
    { assert (Hij : (i * d1 + j + 1 <= d0 * d1)%nat) by nia.
      assert (((i * d1 + j + 1) * d2 <= d0 * d1 * d2)%nat)
        by (apply Nat.mul_le_mono_r; exact Hij).
      lia. }
    unfold np.clip at 1. rewrite map_map.
    set (g := fun v => np.to_uint8 (np.clip1 0 255 v)).
    rewrite (nth_indep _ 0%Z (g 0)) by (rewrite length_map, Hlt; exact Hidx).
    rewrite (map_nth g), transpose120_nth by assumption.
    unfold c6, np.clip. rewrite map_map.
    set (h := fun v => np.clip1 0 1 v * 255).
    rewrite (nth_indep _ 0 (h 0)) by (rewrite length_map, Hls; exact Hidx').
    rewrite (map_nth h). reflexivity.
Qed.

Lemma deprocess_image_channels_first_witness :
  exists w' img,
    deprocess_image first_backend planar_array rgb_world = (w', inr img)
    /\ ishape img = [1; 3; 2]%nat
    /\ length (idata img) = (2 * 1 * 3)%nat.
Proof.
  destruct (deprocess_image_channels_first first_backend planar_array
              rgb_world 2 1 3) as (w' & img & Hrun & Hsh & Hlen & _).
  - reflexivity.
  - split; [unfold valid; simpl; lia | reflexivity].
  - reflexivity.
  - exists w', img. split; [exact Hrun|]. split; [exact Hsh | exact Hlen].
Defined.

(** X7.  Under the channels-first format an array that does not have three
    axes makes [deprocess_image] raise [ValueError], and by then the caller's
    array has already been overwritten with the shifted values. *)
Theorem deprocess_image_not_three_axes (K : backend) (x : ndarray) (w : world) :
  image_data_format K = channels_first ->
  valid x w ->
  length (shape x) <> 3%nat ->
  exists w',
    deprocess_image K x w = (w', inl ValueError)
    /\ contents x w' = shifted K (contents x w).
Proof.
  intros Hfmt Hv Hn.
  destruct (deprocess_image_full K x w Hv) as (w' & extra & Hrun & _).
  destruct (deprocess_image_run K x w Hv) as (w1 & r & Hrun1 & Hc & _).
  rewrite Hrun in Hrun1. injection Hrun1 as <- _.
  exists w'. split; [|exact Hc]. rewrite Hrun. f_equal.
  unfold deprocess_result. rewrite Hfmt.
  destruct (shape x) as [|d0 [|d1 [|d2 [|d3 s]]]]; try reflexivity.
  simpl in Hn. congruence.
Qed.

Lemma deprocess_image_not_three_axes_witness :
  exists w',
    deprocess_image first_backend vector_array rgb_world = (w', inl ValueError)
    /\ contents vector_array w'
       = shifted first_backend (contents vector_array rgb_world).
Proof.
  apply (deprocess_image_not_three_axes first_backend vector_array rgb_world).
  - reflexivity.
  - unfold valid. simpl. lia.
  - simpl. lia.
Defined.

(** X8.  [deprocess_image] prints nothing, draws no random sample and
    reads no clock; it allocates its result in new buffers, leaves every other
    array of the store as it is, and in the buffer of its argument it changes
    only the elements the argument sees. *)
Theorem deprocess_image_frame (K : backend) (x : ndarray) (w : world) :
  valid x w ->
  let w' := fst (deprocess_image K x w) in
  log w' = log w /\ rng w' = rng w /\ clock w' = clock w
  /\ (length (heap w) < length (heap w'))%nat
  /\ (forall y, valid y w -> buf y <> buf x -> contents y w' = contents y w)
  /\ skipn (np.size (shape x)) (nth (buf x) (heap w') [])
     = skipn (np.size (shape x)) (nth (buf x) (heap w) []).
Proof.
  intros Hv w'.
  destruct (deprocess_image_full K x w Hv)
    as (w1 & extra & Hrun & Hh & Hex & Hlog & Hrng & Hclk).
  unfold w'. rewrite Hrun. cbn [fst].
  split; [exact Hlog|]. split; [exact Hrng|]. split; [exact Hclk|].
  split; [|split].
  - rewrite Hh, length_app, update_length.
    destruct extra; [congruence | simpl; lia].
  - intros y Hy Hne. unfold contents. rewrite Hh.
    rewrite app_nth1 by (rewrite update_length; exact Hy).
    rewrite nth_update_other by exact Hne. reflexivity.
  - rewrite Hh. rewrite app_nth1 by (rewrite update_length; exact Hv).
    rewrite nth_update_same by exact Hv.
    apply skipn_tail. rewrite shifted_length. reflexivity.
Qed.

Lemma deprocess_image_frame_witness :
  log (fst (deprocess_image default_backend rgb_array rgb_world))
  = log rgb_world.
Proof.
  apply (deprocess_image_frame default_backend rgb_array rgb_world).
  unfold valid. simpl. lia.
Defined.

(** * The filters: the whole effect of the ascent for one filter *)

Section AscentRuns.

Variable K : backend.
Variable H : host.

Lemma last_loss_cons (lv : option R) (e : evaluation) (ev : list evaluation) :
  last_loss lv (e :: ev) = last_loss (Some (eval_loss e)) ev.
Proof. reflexivity. Qed.

Lemma last_loss_nonempty (lv lv' : option R) (e : evaluation)
    (ev : list evaluation) :
  last_loss lv (e :: ev) = last_loss lv' (e :: ev).
Proof. reflexivity. Qed.

(** The whole effect of a run of the ascent loop on an array of the store. *)
Lemma ascent_loop_full (l : layer) (f : nat) (x : ndarray) (step : R)
    (range : list nat) :
  forall (lv : option R) (w : world),
  valid x w ->
  exists w' ev,
    ascent_loop K H l f x step range lv w = (w', inr (last_loss lv ev))
    /\ log w' = log w ++ loop_events H f ev
    /\ ascent K l f step (length range) (contents x w) ev (contents x w')
    /\ heap w'
       = update (buf x)
           (contents x w' ++ skipn (np.size (shape x)) (nth (buf x) (heap w) []))
           (heap w)
    /\ rng w' = rng w /\ clock w' = clock w.
Proof.
  induction range as [|i range IH]; intros lv w Hv.
  - exists w, []. cbn [ascent_loop last_loss fold_left length].
    split; [reflexivity|]. split; [unfold loop_events; cbn; rewrite app_nil_r; reflexivity|].
    split; [constructor|]. split; [apply heap_start|]. split; reflexivity.
  - cbn [ascent_loop length]. unfold call_iterate.
    rewrite bind_assoc, bind_read, bind_assoc, bind_emit, bind_ret, bind_iadd.
    set (d := contents x w).
    set (r := iterate K l f d).
    set (e := (d, fst r, snd r) : evaluation).
    set (w1 := {| heap := heap w; log := log w ++ [Eval d (fst r) (snd r)];
                  rng := rng w; clock := clock w |}).
    change (contents x w1) with d.
    fold (ascent_step step d (snd r)).
    set (w2 := store x (ascent_step step d (snd r)) w1).
    assert (Hl : length (ascent_step step d (snd r)) = length (contents x w))
      by apply ascent_step_length.
    destruct (store_chain x w w1 d (ascent_step step d (snd r)) Hv eq_refl
                (heap_start x w)) as [_ Hh2]. fold w2 in Hh2.
    assert (H2 : contents x w2 = ascent_step step d (snd r)).
    { apply contents_store; [exact Hv | exact Hl]. }
    assert (V2 : valid x w2) by (apply valid_store; exact Hv).
    destruct (Rle_dec (fst r) 0) as [Hle|Hgt].
    + unfold print. rewrite bind_emit.
      eexists. exists [e]. split; [reflexivity|].
      cbn [log heap rng clock].
      split; [|split; [|split; [|split; reflexivity]]].
      * change (log w2) with (log w1). unfold w1. cbn [log].
        rewrite <- app_assoc. f_equal. unfold loop_events.
        cbn [map app last_loss fold_left]. unfold e at 3 4.
        unfold eval_loss at 1 2. cbn [fst snd].
        destruct (Rle_dec (fst r) 0); [reflexivity | contradiction].
      * change (contents x _) with (contents x w2). rewrite H2.
        apply ascent_break. exact Hle.
      * change (contents x _) with (contents x w2). rewrite H2. exact Hh2.
    + destruct (IH (Some (fst r)) w2 V2)
        as (w' & ev & Hrun & Hlog & Hasc & Hh & Hr & Hc).
      exists w', (e :: ev). split; [rewrite Hrun; reflexivity|].
      split; [|split; [|split; [|split]]].
      * rewrite Hlog. change (log w2) with (log w1). unfold w1. cbn [log].
        rewrite <- app_assoc. f_equal. unfold loop_events. cbn [map app].
        f_equal. f_equal.
        destruct ev as [|e1 ev1]; [|reflexivity].
        cbn [last_loss fold_left]. unfold e, eval_loss. cbn [fst snd].
        destruct (Rle_dec (fst r) 0); [contradiction | reflexivity].
      * apply ascent_next; [exact Hgt|]. fold r. rewrite <- H2. exact Hasc.
      * rewrite Hh, Hh2. rewrite nth_update_same by exact Hv.
        destruct (skipn_tail (np.size (shape x)) (ascent_step step d (snd r))
                    (nth (buf x) (heap w) [])) as [-> _].
        { rewrite Hl. reflexivity. }
        apply update_update.
      * rewrite Hr. reflexivity.
      * rewrite Hc. reflexivity.
Qed.

(** The evaluations of a run follow one another: each is made at the tensor
    the one before left. *)
Lemma ascent_chain (l : layer) (f : nat) (step : R) (n : nat) (x x' : list R)
    (ev : list evaluation) :
  ascent K l f step n x ev x' ->
  (forall e, In e ev ->
     eval_loss e = fst (iterate K l f (eval_input e))
     /\ eval_grads e = snd (iterate K l f (eval_input e))
     /\ length (eval_input e) = length x
     /\ length (eval_grads e) = length x)
  /\ (forall e, nth_error ev 0 = Some e -> eval_input e = x)
  /\ (forall i e e', nth_error ev i = Some e -> nth_error ev (S i) = Some e' ->
        eval_input e' = ascent_step step (eval_input e) (eval_grads e))
  /\ length x' = length x.
Proof.
  induction 1 as [x|n x Hle|n x ev x' Hgt Hrest IH].
  - split; [intros e []|]. split; [intros e He; discriminate|].
    split; [intros [|i] e e' He; discriminate | reflexivity].
  - split; [|split; [|split]].
    + intros e [<-|[]]. unfold eval_loss, eval_grads, eval_input. cbn [fst snd].
      repeat split. apply iterate_grads_length.
    + intros e He. injection He as <-. reflexivity.
    + intros [|i] e e' He He'; [discriminate|].
      destruct i; discriminate.
    + apply ascent_step_length.
  - destruct IH as (Hall & Hfirst & Hnext & Hlen).
    rewrite ascent_step_length in Hall, Hlen.
    split; [|split; [|split]].
    + intros e [<-|Hin]; [|apply Hall; exact Hin].
      unfold eval_loss, eval_grads, eval_input. cbn [fst snd].
      repeat split. apply iterate_grads_length.
    + intros e He. injection He as <-. reflexivity.
    + intros [|i] e e' He He'.
      * injection He as <-. cbn [nth_error] in He'.
        rewrite (Hfirst e' He'). reflexivity.
      * cbn [nth_error] in He, He'. exact (Hnext i e e' He He').
    + exact Hlen.
Qed.

End AscentRuns.

Section FilterRuns.

Variable K : backend.
Variable H : host.

Lemma firstn_update_beyond {A} (n i : nat) (v : A) (l : list A) :
  (n <= i)%nat -> firstn n (update i v l) = firstn n l.
Proof.
  revert n i. induction l as [|a l IH]; intros [|n] [|i] Hle; simpl;
    try reflexivity; try lia.
  f_equal. apply IH. lia.
Qed.

Lemma evals_loop_events (f : nat) (ev : list evaluation) :
  evals (loop_events H f ev) = ev.
Proof.
  unfold loop_events. rewrite evals_app.
  assert (E1 : evals (map (fun e => Eval (eval_input e) (eval_loss e)
                                      (eval_grads e)) ev) = ev).
  { induction ev as [|[[a b] c] ev IH]; [reflexivity|].
    cbn [map evals]. rewrite IH. reflexivity. }
  rewrite E1.
  destruct (last_loss None ev) as [lv|]; [|apply app_nil_r].
  destruct (Rle_dec lv 0); apply app_nil_r.
Qed.

Lemma prints_loop_events (f : nat) (ev : list evaluation) :
  prints (loop_events H f ev)
  = match last_loss None ev with
    | Some lv => if Rle_dec lv 0 then [skip_line H f lv] else []
    | None => []
    end.
Proof.
  unfold loop_events.
  assert (E : forall tl, prints
            (map (fun e => Eval (eval_input e) (eval_loss e) (eval_grads e)) ev
             ++ tl) = prints tl).
  { intro tl. induction ev as [|e ev IH]; [reflexivity | exact IH]. }
  rewrite E. destruct (last_loss None ev) as [lv|]; [|reflexivity].
  destruct (Rle_dec lv 0); reflexivity.
Qed.

(** The whole effect of the loop body for one filter. *)
Lemma process_filter_full (l : layer) (iw ih ic : nat)
    (kept : list (uint8_array * R)) (f : nat) (w : world) :
  exists w' ev x' kept' lv,
    process_filter K H l iw ih ic kept f w = (w', inr kept')
    /\ log w'
       = log w ++ Print ("Processing filter " ++ str_int f)%string
                  :: loop_events H f ev
    /\ ascent K l f 1 20
         (initial_tensor H (rng w) (iw * ih * ic)) ev x'
    /\ last_loss None ev = Some lv
    /\ (if Rgt_dec lv 0
        then exists img,
               deprocess_result K [iw; ih; ic] (shifted K x') = inr img
               /\ kept' = kept ++ [(img, lv)]
        else kept' = kept)
    /\ rng w' = (rng w + iw * ih * ic)%nat
    /\ clock w' = clock w
    /\ firstn (length (heap w)) (heap w') = heap w
    /\ contents {| buf := S (length (heap w)); shape := [1%nat; iw; ih; ic] |} w'
       = (if Rgt_dec lv 0 then shifted K x' else x').
Proof.
  assert (HN : np.size [1%nat; iw; ih; ic] = (iw * ih * ic)%nat)
    by (unfold np.size; cbn [fold_right]; lia).
  assert (HN3 : np.size [iw; ih; ic] = (iw * ih * ic)%nat)
    by (unfold np.size; cbn [fold_right]; lia).
  unfold process_filter, print. rewrite bind_emit, bind_np_random.
  cbn [heap log rng clock]. rewrite HN.
  set (rand := map (random_stream H) (seq (rng w) (iw * ih * ic))).
  set (wa := push rand _).
  set (r0 := {| buf := length (heap w); shape := [1%nat; iw; ih; ic] |}).
  assert (Hr0 : contents r0 wa = rand).
  { assert (Hlen : (length rand <= np.size [1%nat; iw; ih; ic])%nat)
      by (unfold rand; rewrite length_map, length_seq, HN; apply Nat.le_refl).
    unfold wa, r0.
    match goal with
    | |- contents _ (push rand ?w0) = _ =>
        exact (contents_new rand [1%nat; iw; ih; ic] w0 Hlen)
    end. }
  rewrite bind_read, Hr0, bind_alloc. cbn [shape r0].
  fold (initial_tensor H (rng w) (iw * ih * ic)).
  set (x0 := initial_tensor H (rng w) (iw * ih * ic)).
  set (x := {| buf := length (heap wa); shape := [1%nat; iw; ih; ic] |}).
  set (wb := push x0 wa).
  assert (Hx0 : contents x wb = x0).
  { apply contents_new. unfold x0, initial_tensor.
    rewrite !length_map, length_seq, HN. apply Nat.le_refl. }
  assert (Vx : valid x wb) by apply valid_new.
  destruct (ascent_loop_full K H l f x 1 (seq 0 20) None wb Vx)
    as (wc & ev & Hrun & Hlog & Hasc & Hh & Hr & Hc).
  rewrite (bind_ok _ _ _ _ _ Hrun).
  change (length (seq 0 20)) with 20%nat in Hasc. rewrite Hx0 in Hasc.
  destruct (ascent_shape K l f 1 19 _ _ _ Hasc)
    as (pre & e & Hev & _ & _ & _ & _ & _).
  assert (Hlast : last_loss None ev = Some (eval_loss e))
    by (rewrite Hev; apply last_loss_last).
  rewrite Hlast.
  assert (Hlogc : log wc = log w ++ Print ("Processing filter " ++ str_int f)%string
                             :: loop_events H f ev).
  { rewrite Hlog. unfold wb, wa, push. cbn [log].
    rewrite <- app_assoc. reflexivity. }
  assert (Hheapb : heap wb = (heap w ++ [rand]) ++ [x0]) by reflexivity.
  assert (Hbuf : buf x = S (length (heap w))).
  { unfold x, wa, push. cbn [buf heap]. rewrite length_app. simpl. lia. }
  assert (Hfirst : firstn (length (heap w)) (heap wc) = heap w).
  { rewrite Hh, firstn_update_beyond by lia.
    rewrite Hheapb, <- app_assoc, firstn_app, Nat.sub_diag, firstn_all.
    simpl. apply app_nil_r. }
  assert (Hlenc : length (heap wc) = length (heap wb))
    by (rewrite Hh; apply update_length).
  exists (if Rgt_dec (eval_loss e) 0
          then fst (deprocess_image K {| buf := buf x; shape := [iw; ih; ic] |} wc)
          else wc), ev, (contents x wc).
  destruct (Rgt_dec (eval_loss e) 0) as [Hpos|Hnpos].
  - unfold getitem0. cbn [shape x]. rewrite bind_ret.
    set (v := {| buf := buf x; shape := [iw; ih; ic] |}).
    assert (Hv : valid v wc).
    { unfold valid. rewrite Hlenc. exact Vx. }
    assert (Hcv : contents v wc = contents x wc).
    { unfold contents. cbn [shape buf v x]. rewrite HN, HN3. reflexivity. }
    destruct (deprocess_image_full K v wc Hv)
      as (wd & extra & Hd & Hhd & _ & Hlogd & Hrngd & Hclkd).
    rewrite Hcv in Hd. cbn [shape v] in Hd.
    assert (H3 : exists img,
               deprocess_result K [iw; ih; ic] (shifted K (contents x wc))
               = inr img).
    { unfold deprocess_result. destruct (image_data_format K); eexists; reflexivity. }
    destruct H3 as [img Himg]. rewrite Himg in Hd.
    rewrite (bind_ok _ _ _ _ _ Hd), Hd. cbn [fst].
    exists (kept ++ [(img, eval_loss e)]), (eval_loss e).
    split; [reflexivity|]. split; [rewrite Hlogd; exact Hlogc|].
    split; [exact Hasc|]. split; [exact Hlast|].
    split; [destruct (Rgt_dec (eval_loss e) 0); [|contradiction];
            exists img; split; [exact Himg | reflexivity]|].
    split; [rewrite Hrngd, Hr; reflexivity|].
    split; [rewrite Hclkd, Hc; reflexivity|].
    split.
    + rewrite Hhd, firstn_app, update_length.
      replace (length (heap w) - length (heap wc))%nat with 0%nat
        by (rewrite Hlenc, Hheapb, !length_app; simpl; lia).
      cbn [firstn]. rewrite app_nil_r, firstn_update_beyond by (cbn [buf v]; lia).
      exact Hfirst.
    + destruct (Rgt_dec (eval_loss e) 0); [|contradiction].
      rewrite <- Hbuf. change {| buf := buf x; shape := [1%nat; iw; ih; ic] |} with x.
      unfold contents at 1. rewrite Hhd.
      rewrite app_nth1 by (rewrite update_length; exact Hv).
      change (buf x) with (buf v) at 1.
      rewrite nth_update_same by exact Hv.
      cbn [shape x v]. rewrite HN, <- HN3.
      change [iw; ih; ic] with (shape v). rewrite <- Hcv.
      apply skipn_tail. rewrite shifted_length. reflexivity.
  - exists kept, (eval_loss e).
    split; [reflexivity|]. split; [exact Hlogc|].
    split; [exact Hasc|]. split; [exact Hlast|].
    split; [destruct (Rgt_dec (eval_loss e) 0); [contradiction | reflexivity]|].
    split; [rewrite Hr; reflexivity|].
    split; [rewrite Hc; reflexivity|]. split; [exact Hfirst|].
    destruct (Rgt_dec (eval_loss e) 0); [contradiction|].
    rewrite <- Hbuf. reflexivity.
Qed.

End FilterRuns.

(** C1.  For every filter, the pair of image and loss is appended to the
    kept filters if and only if the last evaluated loss is strictly positive,
    and its loss is that last loss; a filter for which some evaluated loss is
    not positive, at any of the at most 20 steps, adds nothing.  The losses
    are those of the backend function: the first evaluation is made at the
    fresh random tensor of the filter, every evaluation gives the mean of the
    filter's output and its normalised gradient at its input, every later
    evaluation is made at the input of the one before plus its gradient, and
    the image kept is what [deprocess_image] gives for the last input plus its
    gradient. *)
Theorem filter_kept_iff_positive (K : backend) (H : host) (l : layer)
    (iw ih ic : nat) (kept : list (uint8_array * R)) (f : nat) (w : world) :
  exists w' kept' pre e,
    process_filter K H l iw ih ic kept f w = (w', inr kept')
    /\ evals (events_since w w') = pre ++ [e]
    /\ (length (pre ++ [e]) <= 20)%nat
    /\ ((exists img, kept' = kept ++ [(img, eval_loss e)]) <-> eval_loss e > 0)
    /\ (kept' = kept <-> ~ eval_loss e > 0)
    /\ (Exists (fun e' => eval_loss e' <= 0) (pre ++ [e]) -> kept' = kept)
    /\ (forall e0, nth_error (pre ++ [e]) 0 = Some e0 ->
          eval_input e0 = initial_tensor H (rng w) (iw * ih * ic))
    /\ (forall i a b,
          nth_error (pre ++ [e]) i = Some a ->
          nth_error (pre ++ [e]) (S i) = Some b ->
          eval_input b
          = zip_with Rplus (eval_input a) (map (fun g => g * 1) (eval_grads a)))
    /\ (forall a, In a (pre ++ [e]) ->
          eval_loss a = output_mean l f (eval_input a)
          /\ (eval_loss a, eval_grads a) = iterate K l f (eval_input a))
    /\ (eval_loss e > 0 ->
        exists img,
          kept' = kept ++ [(img, eval_loss e)]
          /\ forall y v,
               valid y v ->
               shape y = [iw; ih; ic] ->
               contents y v
               = zip_with Rplus (eval_input e)
                   (map (fun g => g * 1) (eval_grads e)) ->
               snd (deprocess_image K y v) = inr img).
Proof.
  destruct (process_filter_full K H l iw ih ic kept f w)
    as (w' & ev & x' & kept' & lv & Hrun & Hlog & Hasc & Hlast & Hkept & _).
  destruct (ascent_shape K l f 1 19 _ _ _ Hasc)
    as (pre & e & Hev & Hpre & Hlen & _ & _ & Hx').
  destruct (ascent_chain K l f 1 _ _ _ _ Hasc) as (Hall & Hfirst & Hnext & _).
  assert (Hevs : evals (events_since w w') = ev).
  { rewrite (events_since_app w w' _ Hlog). cbn [evals].
    apply evals_loop_events. }
  rewrite Hev, last_loss_last in Hlast. injection Hlast as <-.
  subst ev.
  assert (Hne : forall img, kept <> kept ++ [(img, eval_loss e)]).
  { intros img Heq. apply (f_equal (@length _)) in Heq.
    rewrite length_app in Heq. simpl in Heq. lia. }
  assert (Hpos : eval_loss e > 0 ->
            exists img,
              deprocess_result K [iw; ih; ic] (shifted K x') = inr img
              /\ kept' = kept ++ [(img, eval_loss e)]).
  { intro Hp. destruct (Rgt_dec (eval_loss e) 0); [exact Hkept | contradiction]. }
  assert (Hneg : ~ eval_loss e > 0 -> kept' = kept).
  { intro Hn. destruct (Rgt_dec (eval_loss e) 0); [contradiction | exact Hkept]. }
  exists w', kept', pre, e. split; [exact Hrun|]. split; [exact Hevs|].
  split; [rewrite length_app; simpl; lia|].
  split; [|split; [|split; [|split; [|split; [|split]]]]].
  - split.
    + intros [img Hk]. destruct (Rgt_dec (eval_loss e) 0) as [Hp|Hn]; [exact Hp|].
      exfalso. rewrite (Hneg Hn) in Hk. exact (Hne img Hk).
    + intro Hp. destruct (Hpos Hp) as (img & _ & Hk). exists img. exact Hk.
  - split; [|exact Hneg].
    intros Hk Hp. destruct (Hpos Hp) as (img & _ & Hk'). rewrite Hk in Hk'.
    exact (Hne img Hk').
  - intro Hex. apply Hneg. apply Exists_app in Hex.
    destruct Hex as [Hex|Hex].
    + apply Exists_exists in Hex. destruct Hex as (e0 & Hin & Hle).
      rewrite Forall_forall in Hpre. exfalso. exact (Hpre e0 Hin Hle).
    + inversion Hex as [? ? Hle|? ? Hex']; subst; [lra | inversion Hex'].
  - exact Hfirst.
  - exact Hnext.
  - intros a Ha. destruct (Hall a Ha) as (Hl & Hg & _).
    split; [exact Hl|]. rewrite Hl, Hg. symmetry. apply surjective_pairing.
  - intro Hp. destruct (Hpos Hp) as (img & Himg & Hk).
    exists img. split; [exact Hk|].
    intros y v Hv Hsh Hc.
    destruct (deprocess_image_full K y v Hv) as (v' & extra & Hd & _).
    rewrite Hd. cbn [snd]. rewrite Hsh, Hc, <- Himg, Hx'. reflexivity.
Qed.

(** C5.  For every filter the ascent loop performs at most 20 iterations;
    it performs exactly 20 whenever every evaluated loss is strictly positive,
    and fewer than 20 only when some evaluated loss is not positive.  An
    iteration is one evaluation of the backend function followed by one update
    of the tensor: the first evaluation is made at the fresh random tensor of
    the filter, every evaluation gives the loss and the normalised gradient of
    the filter at its input, every later one is made at the input of the one
    before plus its gradient, no iteration follows a loss that is not
    positive, and after the last iteration the tensor of the filter holds the
    last input plus its gradient (deprocessed in place when the filter is
    kept). *)
Theorem ascent_iterations (K : backend) (H : host) (l : layer)
    (iw ih ic : nat) (kept : list (uint8_array * R)) (f : nat) (w : world) :
  exists w' kept',
    process_filter K H l iw ih ic kept f w = (w', inr kept')
    /\ (length (evals (events_since w w')) <= 20)%nat
    /\ (Forall (fun e => eval_loss e > 0) (evals (events_since w w')) ->
        length (evals (events_since w w')) = 20%nat)
    /\ ((length (evals (events_since w w')) < 20)%nat ->
        Exists (fun e => eval_loss e <= 0) (evals (events_since w w')))
    /\ (forall e0, nth_error (evals (events_since w w')) 0 = Some e0 ->
          eval_input e0 = initial_tensor H (rng w) (iw * ih * ic))
    /\ (forall i a b,
          nth_error (evals (events_since w w')) i = Some a ->
          nth_error (evals (events_since w w')) (S i) = Some b ->
          ~ eval_loss a <= 0
          /\ eval_input b
             = zip_with Rplus (eval_input a) (map (fun g => g * 1) (eval_grads a)))
    /\ (forall a, In a (evals (events_since w w')) ->
          (eval_loss a, eval_grads a) = iterate K l f (eval_input a))
    /\ exists pre e,
         evals (events_since w w') = pre ++ [e]
         /\ contents {| buf := S (length (heap w));
                        shape := [1%nat; iw; ih; ic] |} w'
            = (if Rgt_dec (eval_loss e) 0
               then shifted K
                      (zip_with Rplus (eval_input e)
                         (map (fun g => g * 1) (eval_grads e)))
               else zip_with Rplus (eval_input e)
                      (map (fun g => g * 1) (eval_grads e))).
Proof.
  destruct (process_filter_full K H l iw ih ic kept f w)
    as (w' & ev & x' & kept' & lv & Hrun & Hlog & Hasc & Hlast & _ & _ & _ & _
        & Hstore).
  destruct (ascent_shape K l f 1 19 _ _ _ Hasc)
    as (pre & e & Hev & Hpre & Hlen & Hearly & _ & Hx').
  destruct (ascent_chain K l f 1 _ _ _ _ Hasc) as (Hall & Hfirst & Hnext & _).
  assert (Hevs : evals (events_since w w') = ev).
  { rewrite (events_since_app w w' _ Hlog). cbn [evals].
    apply evals_loop_events. }
  rewrite Hev, last_loss_last in Hlast. injection Hlast as <-.
  exists w', kept'. split; [exact Hrun|]. rewrite Hevs.
  split; [|split; [|split; [|split; [|split; [|split]]]]].
  - rewrite Hev, length_app. cbn [length]. lia.
  - rewrite Hev, length_app. cbn [length].
    intro Hpos. apply Forall_app in Hpos. destruct Hpos as [_ Hlastp].
    inversion Hlastp as [|? ? Hp _]; subst.
    destruct (Nat.lt_ge_cases (length pre) 19) as [Hlt|Hge]; [|lia].
    specialize (Hearly Hlt). lra.
  - rewrite Hev, length_app. cbn [length].
    intro Hlt. apply Exists_app. right. constructor. apply Hearly. lia.
  - exact Hfirst.
  - intros i a b Ha Hb. split; [|exact (Hnext i a b Ha Hb)].
    rewrite Hev in Ha, Hb.
    assert (Hi : (i < length pre)%nat).
    { assert (Hb' : (S i < length (pre ++ [e]))%nat)
        by (apply nth_error_Some; rewrite Hb; discriminate).
      rewrite length_app in Hb'. cbn [length] in Hb'. lia. }
    rewrite nth_error_app1 in Ha by exact Hi.
    rewrite Forall_forall in Hpre. apply Hpre.
    apply nth_error_In with (n := i). exact Ha.
  - intros a Ha. destruct (Hall a Ha) as (Hl & Hg & _).
    rewrite Hl, Hg. symmetry. apply surjective_pairing.
  - exists pre, e. split; [exact Hev|].
    rewrite Hstore, Hx'. reflexivity.
Qed.

(** X10.  In every run of the ascent loop the first evaluation is made at
    the tensor the loop starts with, every evaluation gives the loss and the
    normalised gradient of the filter at its input, every later evaluation is
    made at the input of the one before plus its gradient times the step, and
    the number of elements of the tensor never changes. *)
Theorem ascent_trajectory (K : backend) (H : host) (l : layer) (f : nat)
    (x : ndarray) (step : R) (range : list nat) (lv : option R) (w : world) :
  exists w' r,
    ascent_loop K H l f x step range lv w = (w', inr r)
    /\ (forall e, nth_error (evals (events_since w w')) 0 = Some e ->
          eval_input e = contents x w)
    /\ (forall i e e',
          nth_error (evals (events_since w w')) i = Some e ->
          nth_error (evals (events_since w w')) (S i) = Some e' ->
          eval_input e'
          = zip_with Rplus (eval_input e)
              (map (fun g => g * step) (eval_grads e)))
    /\ (forall e, In e (evals (events_since w w')) ->
          (eval_loss e, eval_grads e) = iterate K l f (eval_input e)
          /\ length (eval_input e) = length (contents x w)
          /\ length (eval_grads e) = length (contents x w))
    /\ length (contents x w') = length (contents x w).
Proof.
  destruct (ascent_loop_run K H l f x step range lv w)
    as (w' & tr & Hrun & Hlog & _ & Hasc & _).
  destruct (ascent_chain K l f step _ _ _ _ Hasc)
    as (Hall & Hfirst & Hnext & Hlen).
  exists w'. eexists. split; [exact Hrun|].
  rewrite (events_since_app w w' tr Hlog).
  split; [exact Hfirst|]. split; [exact Hnext|]. split; [|exact Hlen].
  intros e He. destruct (Hall e He) as (Hl & Hg & Hli & Hlg).
  split; [|split; assumption].
  rewrite Hl, Hg. symmetry. apply surjective_pairing.
Qed.

(** X11.  Every filter starts from a fresh tensor of
    [img_width * img_height * img_chans] random elements, the i-th of which is
    [(sample - 0.5) * 20 + 128] for the next sample of the stream: when the
    samples are in [0, 1) every element lies between 118 and 138, both
    included (rounding can reach 138).  The first evaluation is made at that
    tensor and every evaluation at a tensor of that many elements. *)
Theorem filter_initial_tensor (K : backend) (H : host) (l : layer)
    (iw ih ic : nat) (kept : list (uint8_array * R)) (f : nat) (w : world) :
  (forall n, 0 <= random_stream H n < 1) ->
  exists w' kept' e0 rest,
    process_filter K H l iw ih ic kept f w = (w', inr kept')
    /\ evals (events_since w w') = e0 :: rest
    /\ length (eval_input e0) = (iw * ih * ic)%nat
    /\ (forall i, (i < iw * ih * ic)%nat ->
          nth i (eval_input e0) 0
          = (random_stream H (rng w + i) - 0.5) * 20 + 128)
    /\ Forall (fun v => 118 <= v <= 138) (eval_input e0)
    /\ Forall (fun e => length (eval_input e) = (iw * ih * ic)%nat) rest.
Proof.
  intro Hrand.
  destruct (process_filter_full K H l iw ih ic kept f w)
    as (w' & ev & x' & kept' & lv & Hrun & Hlog & Hasc & _).
  destruct (ascent_chain K l f 1 _ _ _ _ Hasc) as (Hall & Hfirst & _ & _).
  destruct (ascent_shape K l f 1 19 _ _ _ Hasc) as (pre & e & Hev & _).
  assert (Hlen0 : length (initial_tensor H (rng w) (iw * ih * ic))
                  = (iw * ih * ic)%nat)
    by (unfold initial_tensor; rewrite !length_map, length_seq; reflexivity).
  assert (Hevs : evals (events_since w w') = ev).
  { rewrite (events_since_app w w' _ Hlog). cbn [evals].
    apply evals_loop_events. }
  destruct ev as [|e0 rest]; [destruct pre; discriminate|].
  exists w', kept', e0, rest. split; [exact Hrun|]. split; [exact Hevs|].
  rewrite (Hfirst e0 eq_refl).
  split; [exact Hlen0|]. split; [|split].
  - intros i Hi. unfold initial_tensor. rewrite map_map.
    set (g := fun n => (random_stream H n - 0.5) * 20 + 128).
    rewrite (nth_indep _ 0 (g 0%nat)) by (rewrite length_map, length_seq; exact Hi).
    rewrite (map_nth g), seq_nth by exact Hi. reflexivity.
  - unfold initial_tensor. rewrite map_map. apply Forall_forall.
    intros v Hv. apply in_map_iff in Hv. destruct Hv as (n & <- & _).
    pose proof (Hrand n). lra.
  - apply Forall_forall. intros e1 He1.
    destruct (Hall e1 (or_intror He1)) as (_ & _ & Hl & _).
    rewrite Hl. exact Hlen0.
Qed.

Lemma filter_initial_tensor_witness :
  exists w' kept' e0 rest,
    process_filter default_backend example_host half_dead_layer 1 1 1 [] 0
      (world_of []) = (w', inr kept')
    /\ evals (events_since (world_of []) w') = e0 :: rest
    /\ Forall (fun v => 118 <= v <= 138) (eval_input e0).
Proof.
  destruct (filter_initial_tensor default_backend example_host half_dead_layer
              1 1 1 [] 0 (world_of []))
    as (w' & kept' & e0 & rest & Hrun & Hev & _ & _ & Hrange & _).
  - intro n. cbn. lra.
  - exists w', kept', e0, rest. split; [exact Hrun|]. split; [exact Hev | exact Hrange].
Defined.


(** X13.  Processing a filter leaves every array that was in the store
    before as it is, takes exactly [img_width * img_height * img_chans]
    samples from the random stream and does not read the clock. *)
Theorem filter_frame (K : backend) (H : host) (l : layer)
    (iw ih ic : nat) (kept : list (uint8_array * R)) (f : nat) (w : world) :
  exists w' kept',
    process_filter K H l iw ih ic kept f w = (w', inr kept')
    /\ (forall y, valid y w -> valid y w' /\ contents y w' = contents y w)
    /\ rng w' = (rng w + iw * ih * ic)%nat
    /\ clock w' = clock w.
Proof.
  destruct (process_filter_full K H l iw ih ic kept f w)
    as (w' & ev & x' & kept' & lv & Hrun & _ & _ & _ & _ & Hr & Hc & Hh & _).
  exists w', kept'. split; [exact Hrun|]. split; [|split; assumption].
  intros y Hy. unfold valid in Hy.
  assert (Hlen : (length (heap w) <= length (heap w'))%nat).
  { rewrite <- Hh at 1. rewrite length_firstn. lia. }
  split; [unfold valid; lia|].
  unfold contents. f_equal.
  transitivity (nth (buf y) (firstn (length (heap w)) (heap w')) []);
    [|rewrite Hh; reflexivity].
  set (n := length (heap w)) in *.
  rewrite <- (firstn_skipn n (heap w')) at 1.
  apply app_nth1. rewrite length_firstn. lia.
Qed.

(** X14.  An image appended for a filter comes with a positive loss, has
    [img_width * img_height * img_chans] bytes, each in [0, 255], and has the
    shape of one input image: [(width, height, chans)] under the channels-last
    format. *)
Theorem kept_image_shape (K : backend) (H : host) (l : layer)
    (iw ih ic : nat) (kept : list (uint8_array * R)) (f : nat) (w : world) :
  exists w' kept',
    process_filter K H l iw ih ic kept f w = (w', inr kept')
    /\ (kept' = kept
        \/ exists img lv,
             kept' = kept ++ [(img, lv)]
             /\ lv > 0
             /\ length (idata img) = (iw * ih * ic)%nat
             /\ Forall (fun z => (0 <= z <= 255)%Z) (idata img)
             /\ ishape img
                = match image_data_format K with
                  | channels_last => [iw; ih; ic]
                  | channels_first => [ih; ic; iw]
                  end).
Proof.
  destruct (process_filter_full K H l iw ih ic kept f w)
    as (w' & ev & x' & kept' & lv & Hrun & _ & Hasc & _ & Hkept & _).
  exists w', kept'. split; [exact Hrun|].
  destruct (Rgt_dec lv 0) as [Hp|Hn]; [|left; exact Hkept]. right.
  destruct Hkept as (img & Himg & ->).
  exists img, lv. split; [reflexivity|]. split; [exact Hp|].
  destruct (ascent_chain K l f 1 _ _ _ _ Hasc) as (_ & _ & _ & Hlen).
  assert (Hls : length (shifted K x') = (iw * ih * ic)%nat).
  { rewrite shifted_length, Hlen. unfold initial_tensor.
    rewrite !length_map, length_seq. reflexivity. }
  unfold deprocess_result in Himg.
  destruct (image_data_format K); injection Himg as <-; cbn [idata ishape].
  - split; [|split; [|reflexivity]].
    + unfold np.clip. rewrite !length_map, transpose120_length.
      unfold np.size. cbn [fold_right]. lia.
    + apply Forall_forall. intros z Hz. apply in_map_iff in Hz.
      destruct Hz as (v & <- & Hin). unfold np.clip in Hin.
      apply in_map_iff in Hin. destruct Hin as (u & <- & _).
      assert (Hb : 0 <= np.clip1 0 255 u <= 255) by (apply clip1_bounds; lra).
      destruct (to_uint8_floor _ Hb) as [-> Hr]. exact Hr.
  - split; [rewrite length_map; exact Hls|]. split; [|reflexivity].
    apply Forall_forall. intros z Hz. apply in_map_iff in Hz.
    destruct Hz as (v & <- & _). apply pixel_floor.
Qed.

(** * Further properties of the layer functions *)

(** X15.  [process_conv_2d_layer] raises [IndexError], with nothing printed,
    for a layer without weights or whose first weight has no axis; for a model
    input with fewer than four axes it raises [ValueError] after the line about
    the layer and before any ascent. *)
Theorem process_conv_2d_layer_errors (K : backend) (H : host) (l : layer)
    (input_img : list nat) (w : world) :
  (weights_shapes l = [] ->
   process_conv_2d_layer K H l input_img w = (w, inl IndexError))
  /\ (forall ws, weights_shapes l = [] :: ws ->
      process_conv_2d_layer K H l input_img w = (w, inl IndexError))
  /\ (forall s0 ws cnt s',
        weights_shapes l = s0 :: ws -> rev s0 = cnt :: s' ->
        (length input_img < 4)%nat ->
        exists w',
          process_conv_2d_layer K H l input_img w = (w', inl ValueError)
          /\ events_since w w' = [Print (layer_line l cnt)]
          /\ heap w' = heap w).
Proof.
  unfold process_conv_2d_layer. split; [|split].
  - intros ->. reflexivity.
  - intros ws ->. reflexivity.
  - intros s0 ws cnt s' -> Hrev Hlen. rewrite Hrev, bind_ret.
    unfold print. rewrite bind_emit.
    eexists. split.
    + destruct input_img as [|b [|d1 [|d2 [|d3 rest]]]]; try reflexivity.
      simpl in Hlen. lia.
    + split; [|reflexivity].
      unfold events_since. cbn [log]. rewrite skipn_app, skipn_all, Nat.sub_diag.
      reflexivity.
Qed.

Section Counting.

Variable K : backend.
Variable H : host.

Lemma length_prints_app (a b : list event) :
  length (prints (a ++ b)) = (length (prints a) + length (prints b))%nat.
Proof.
  induction a as [|[s|x lo g|p i] a IH]; simpl; rewrite ?IH; reflexivity.
Qed.

Lemma for_filters_counts (l : layer) (iw ih ic : nat) (n : nat) :
  forall (a : nat) (kept : list (uint8_array * R)) (w : world),
  exists w' tr kept',
    for_filters K H l iw ih ic (seq a n) kept w = (w', inr kept')
    /\ log w' = log w ++ tr
    /\ (n <= length (evals tr) <= 20 * n)%nat
    /\ (length kept <= length kept' <= length kept + n)%nat
    /\ length (prints tr)
       = (n + (n - (length kept' - length kept)))%nat
    /\ rng w' = (rng w + n * (iw * ih * ic))%nat
    /\ clock w' = clock w
    /\ firstn (length (heap w)) (heap w') = heap w.
Proof.
  induction n as [|n IH]; intros a kept w.
  - exists w, [], kept. cbn [seq for_filters].
    split; [reflexivity|]. split; [rewrite app_nil_r; reflexivity|].
    split; [simpl; lia|]. split; [lia|]. split; [simpl; lia|].
    split; [lia|]. split; [reflexivity|]. apply firstn_all.
  - cbn [seq for_filters].
    destruct (process_filter_full K H l iw ih ic kept a w)
      as (w1 & ev & x' & kept1 & lv & Hrun1 & Hlog1 & Hasc & Hlast & Hkept
          & Hr1 & Hc1 & Hh1 & _).
    rewrite (bind_ok _ _ _ _ _ Hrun1).
    destruct (IH (S a) kept1 w1)
      as (w' & tr2 & kept' & Hrun2 & Hlog2 & Hev2 & Hk2 & Hp2 & Hr2 & Hc2 & Hh2).
    destruct (ascent_shape K l a 1 19 _ _ _ Hasc)
      as (pre & e & Hev & _ & Hlen & _).
    assert (Hl1 : (length (heap w) <= length (heap w1))%nat).
    { rewrite <- Hh1 at 1. rewrite length_firstn. lia. }
    assert (Hk1 : (length kept1 = length kept /\ lv <= 0)
                  \/ (length kept1 = S (length kept) /\ ~ lv <= 0)).
    { destruct (Rgt_dec lv 0) as [Hp|Hn].
      - right. destruct Hkept as (img & _ & ->).
        rewrite length_app. simpl. split; [lia | lra].
      - left. subst kept1. split; [reflexivity | lra]. }
    exists w', (Print ("Processing filter " ++ str_int a)%string
                :: loop_events H a ev ++ tr2), kept'.
    split; [exact Hrun2|].
    split; [rewrite Hlog2, Hlog1, <- app_assoc; reflexivity|].
    split; [|split; [|split; [|split; [|split]]]].
    + cbn [evals]. rewrite evals_app, evals_loop_events, length_app, Hev, length_app.
      simpl. lia.
    + destruct Hk1 as [[Hk1 _]|[Hk1 _]]; lia.
    + cbn [prints length]. rewrite length_prints_app, prints_loop_events, Hlast, Hp2.
      destruct Hk1 as [[Hk1 Hle]|[Hk1 Hnle]];
        destruct (Rle_dec lv 0); try contradiction; cbn [length]; lia.
    + rewrite Hr2, Hr1. lia.
    + rewrite Hc2, Hc1. reflexivity.
    + rewrite <- Hh1 at 2. rewrite <- Hh2.
      rewrite firstn_firstn. f_equal. lia.
Qed.

End Counting.

(** X16.  For a convolution layer with [filter_cnt] filters and a model
    input of four axes, [process_conv_2d_layer] returns at most [filter_cnt]
    images, each with a positive loss; it evaluates the backend function at
    least [filter_cnt] and at most [20 * filter_cnt] times, prints one line for
    the layer, one for every filter and at most one more for every filter it
    does not keep, writes no file, and takes
    [filter_cnt * width * height * chans] random samples. *)
Theorem process_conv_2d_layer_counts (K : backend) (H : host) (l : layer)
    (input_img : list nat) (w : world)
    (s0 : list nat) (ws : list (list nat)) (cnt : nat) (s' : list nat)
    (iw ih ic : nat) :
  weights_shapes l = s0 :: ws ->
  rev s0 = cnt :: s' ->
  (exists batch, input_img = [batch; iw; ih; ic]) ->
  exists w' kept,
    process_conv_2d_layer K H l input_img w = (w', inr kept)
    /\ (length kept <= cnt)%nat
    /\ Forall (fun p => snd p > 0) kept
    /\ (cnt <= length (evals (events_since w w')) <= 20 * cnt)%nat
    /\ (1 + cnt <= length (prints (events_since w w'))
        <= 1 + cnt + (cnt - length kept))%nat
    /\ saves (events_since w w') = []
    /\ rng w' = (rng w + cnt * (iw * ih * ic))%nat
    /\ clock w' = clock w.
Proof.
  intros Hws Hrev [batch ->]. unfold process_conv_2d_layer.
  cbn [skipn firstn].
  rewrite Hws, Hrev, bind_ret. unfold print. rewrite bind_emit.
  fold (layer_line l cnt).
  set (w1 := {| heap := heap w; log := log w ++ [Print (layer_line l cnt)];
                rng := rng w; clock := clock w |}).
  destruct (for_filters_counts K H l iw ih ic cnt 0 [] w1)
    as (w' & tr & kept & Hrun & Hlog & Hev & Hk & Hp & Hr & Hc & _).
  destruct (for_filters_run K H l iw ih ic cnt 0 [] w1)
    as (w2 & tr2 & new & Hrun2 & Hlog2 & Hsv & _ & _ & _ & Hall & _).
  rewrite Hrun in Hrun2. injection Hrun2 as <- Hkept.
  rewrite Hlog in Hlog2. apply app_inv_head in Hlog2. subst tr2.
  cbn [app] in Hkept.
  assert (Hsince : events_since w w' = Print (layer_line l cnt) :: tr).
  { apply events_since_app. rewrite Hlog. unfold w1. cbn [log].
    rewrite <- app_assoc. reflexivity. }
  exists w', kept. split; [exact Hrun|]. rewrite Hsince.
  cbn [length] in Hk. split; [lia|]. split; [|split; [|split; [|split]]].
  - rewrite Hkept. apply Forall_forall. intros p Hp'.
    apply in_map_iff in Hp'. destruct Hp' as (q & <- & Hq).
    rewrite Forall_forall in Hall. apply (Hall q Hq).
  - cbn [evals]. exact Hev.
  - cbn [prints length]. rewrite Hp. cbn [length]. lia.
  - cbn [saves]. exact Hsv.
  - split; [rewrite Hr; reflexivity | rewrite Hc; reflexivity].
Qed.

Lemma process_conv_2d_layer_counts_witness :
  exists w' kept,
    process_conv_2d_layer default_backend example_host half_dead_layer
      [1; 1; 1; 1]%nat (world_of []) = (w', inr kept)
    /\ (length kept <= 2)%nat
    /\ (2 <= length (evals (events_since (world_of []) w')) <= 20 * 2)%nat.
Proof.
  destruct (process_conv_2d_layer_counts default_backend example_host
              half_dead_layer [1; 1; 1; 1]%nat (world_of [])
              [3; 3; 1; 2]%nat [[2%nat]] 2 [1; 3; 3]%nat 1 1 1
              eq_refl eq_refl (ex_intro _ 1%nat eq_refl))
    as (w' & kept & Hrun & Hk & _ & Hev & _).
  exists w', kept. split; [exact Hrun|]. split; [exact Hk | exact Hev].
Defined.

Section Names.

Lemma is_ascii_app (a b : pystr) :
  is_ascii (a ++ b)%string = is_ascii a && is_ascii b.
Proof.
  induction a as [|c a IH]; [reflexivity|].
  cbn [append is_ascii]. rewrite IH. apply andb_assoc.
Qed.

Lemma digits_ascii (d : Decimal.uint) :
  is_ascii (NilEmpty.string_of_uint d) = true.
Proof. induction d; cbn; auto. Qed.

Lemma str_int_ascii (n : nat) : is_ascii (str_int n) = true.
Proof.
  unfold str_int, NilZero.string_of_uint.
  destruct (Nat.to_uint n); try apply digits_ascii. reflexivity.
Qed.

End Names.

(** X17.  The name of a written file is ASCII exactly when the output
    directory, the time stamp, the layer name and the formatted loss are: the
    index and the fixed parts of the name never bring in another character. *)
Theorem file_name_ascii (H : host) (out_dir date_time_str name : pystr)
    (i : nat) (loss : R) :
  is_ascii (file_name H out_dir date_time_str name i loss)
  = is_ascii out_dir && is_ascii date_time_str && is_ascii name
    && is_ascii (float_str H loss).
Proof.
  unfold file_name. rewrite !is_ascii_app, str_int_ascii.
  cbn [is_ascii nat_of_ascii]. cbn.
  destruct (is_ascii out_dir), (is_ascii date_time_str), (is_ascii name),
    (is_ascii (float_str H loss)); reflexivity.
Qed.

(** X19.  A model whose layers are neither convolution layers nor nested
    models, all with ASCII names, is run through without any effect: nothing is
    printed, evaluated or written. *)
Theorem other_layers_skipped (K : backend) (H : host) (m : model)
    (out_dir : pystr) (w : world) :
  Forall (fun l => is_model (type_name l) = false
                   /\ type_name l <> "Conv2D"%string
                   /\ is_ascii (name l) = true) (layers m) ->
  process_layers K H m out_dir w = (w, inr tt).
Proof.
  unfold process_layers. intro Hall.
  induction Hall as [|l ls (Hm & Ht & Ha) _ IH]; [reflexivity|].
  cbn [for_layers].
  assert (Hbody : layer_body K H m out_dir l w = (w, inr tt)).
  { unfold layer_body. rewrite Hm, Ha, bind_ret.
    unfold process_layer_functions. cbn [dict_get].
    destruct (String.eqb_spec "Conv2D" (type_name l)) as [E|_];
      [symmetry in E; contradiction | reflexivity]. }
  rewrite (bind_ok _ _ _ _ _ Hbody). exact IH.
Qed.

Lemma other_layers_skipped_witness :
  process_layers default_backend example_host dense_model "out"%string
    (world_of []) = (world_of [], inr tt).
Proof.
  apply other_layers_skipped.
  repeat constructor; discriminate.
Defined.

(** X20.  A layer that is itself a model ([Model] or [Sequential]) stops the
    run with [TypeError] when the loop reaches it, whatever its name: the
    recursive call leaves out the output directory.  The layers before it have
    been processed, the layers after it are not. *)
Theorem nested_model_type_error (K : backend) (H : host) (m : model)
    (out_dir : pystr) (w w1 : world) (pre : list layer) (nested : layer)
    (post : list layer) :
  layers m = pre ++ nested :: post ->
  is_model (type_name nested) = true ->
  for_layers K H m out_dir pre w = (w1, inr tt) ->
  process_layers K H m out_dir w = (w1, inl TypeError).
Proof.
  intros Hl Hm Hpre. unfold process_layers.
  rewrite Hl, for_layers_app, (bind_ok _ _ _ _ _ Hpre).
  cbn [for_layers]. apply bind_error. unfold layer_body. rewrite Hm. reflexivity.
Qed.

Lemma nested_model_type_error_witness :
  process_layers default_backend example_host nesting_model "out"%string
    (world_of []) = (world_of [], inl TypeError).
Proof.
  apply (nested_model_type_error default_backend example_host nesting_model
           "out"%string (world_of []) (world_of [])
           [dense_layer] nested_layer [half_dead_layer]);
    reflexivity.
Defined.

(** * Properties of the conversion of sequential models and of the entry point *)

Section Conversion.

Lemma convert_unfold (self : layer) (ib : list nat) (md : option kobj)
    (inp : list nat) (il : option (list nat)) (ls : option (list kobj)) :
  convert_sequential_to_model (KObj self ib md inp il ls)
  = match unwrapped (KObj self ib md inp il ls) with
    | None => inl AttributeError
    | Some (KObj self1 ib1 md1 inp1 il1 ls1) =>
        match il1 with
        | None => inl AttributeError
        | Some i1 =>
            if truthy i1 then
              match ls1 with
              | None => inl AttributeError
              | Some l1 =>
                  if truthy l1 then
                    match convert_layers l1 with
                    | inl e => inl e
                    | inr l2 => inr (KObj self1 ib1 md1 inp1 il1 (Some l2))
                    end
                  else inl (Raised AssertionError)
              end
            else inl (Raised AssertionError)
        end
    end.
Proof.
  cbn [unwrapped].
  destruct (String.eqb (type_name self) "Sequential") eqn:Hs.
  - cbn [convert_sequential_to_model]. rewrite Hs.
    destruct md as [[self' ib' md' inp' il' ls']|]; reflexivity.
  - cbn [convert_sequential_to_model]. rewrite Hs. reflexivity.
Qed.

Lemma ksize_layers (self : layer) (ib : list nat) (md : option kobj)
    (inp : list nat) (il : option (list nat)) (l : list kobj) (x : kobj) :
  In x l -> (ksize x < ksize (KObj self ib md inp il (Some l)))%nat.
Proof.
  intro Hin. cbn [ksize].
  set (total := fix total (l0 : list kobj) : nat :=
                  match l0 with
                  | [] => O
                  | x0 :: l' => (ksize x0 + total l')%nat
                  end).
  assert (Hx : (ksize x <= total l)%nat).
  { induction l as [|a l IH]; [destruct Hin|].
    cbn. fold total. destruct Hin as [->|Hin]; [lia|].
    specialize (IH Hin). lia. }
  lia.
Qed.

Lemma ksize_model_attr (self : layer) (ib : list nat) (m : kobj)
    (inp : list nat) (il : option (list nat)) (ls : option (list kobj)) :
  (ksize m < ksize (KObj self ib (Some m) inp il ls))%nat.
Proof. cbn [ksize]. lia. Qed.

Lemma truthy_nonempty {A} (l : list A) : l <> [] -> truthy l = true.
Proof. destruct l; [congruence | reflexivity]. Qed.

(** The loop converts the models among the layers and keeps the other
    layers, one by one. *)
Lemma convert_layers_pointwise (l l' : list kobj) :
  convert_layers l = inr l' <->
  Forall2 (fun o o' => if is_model (class_of o)
                       then convert_sequential_to_model o = inr o'
                       else o' = o) l l'.
Proof.
  revert l'. induction l as [|o l IH]; intro l'.
  - cbn. split.
    + intro E. injection E as <-. constructor.
    + intro F. inversion F. reflexivity.
  - cbn [convert_layers]. split.
    + intro E.
      destruct (is_model (class_of o)) eqn:Hm.
      * destruct (convert_sequential_to_model o) as [e|o'] eqn:Ho; [discriminate|].
        destruct (convert_layers l) as [e|l''] eqn:Hl; [discriminate|].
        injection E as <-. constructor; [rewrite Hm; exact Ho|].
        apply IH. reflexivity.
      * destruct (convert_layers l) as [e|l''] eqn:Hl; [discriminate|].
        injection E as <-. constructor; [rewrite Hm; reflexivity|].
        apply IH. reflexivity.
    + intro F. inversion F as [|? o' ? l'' Ho Hl]; subst.
      apply IH in Hl. rewrite Hl.
      destruct (is_model (class_of o)); [rewrite Ho | subst o']; reflexivity.
Qed.

Lemma convert_layers_sound (l : list kobj) :
  (forall o, In o l -> is_model (class_of o) = true ->
     exists o', convert_sequential_to_model o = inr o' /\ flat o' /\ sound o') ->
  exists l',
    convert_layers l = inr l'
    /\ length l' = length l
    /\ Forall (fun o => is_model (class_of o) = true -> flat o) l'
    /\ Forall (fun o => is_model (class_of o) = true -> sound o) l'.
Proof.
  induction l as [|o l IH]; intro Hall.
  - exists []. repeat split; constructor.
  - destruct IH as (l' & Hl & Hlen & Hf & Hs).
    { intros o1 Hin. apply Hall. right. exact Hin. }
    cbn [convert_layers]. rewrite Hl.
    destruct (is_model (class_of o)) eqn:Hm.
    + destruct (Hall o (or_introl eq_refl) Hm) as (o' & Ho & Hfo & Hso).
      rewrite Ho. exists (o' :: l'). split; [reflexivity|].
      split; [simpl; lia|]. split; constructor; auto.
    + exists (o :: l'). split; [reflexivity|]. split; [simpl; lia|].
      split; constructor; auto; intro E; congruence.
Qed.

Lemma convert_layers_fixed (l : list kobj) :
  (forall o, In o l -> is_model (class_of o) = true ->
     convert_sequential_to_model o = inr o) ->
  convert_layers l = inr l.
Proof.
  intro Hall. apply convert_layers_pointwise.
  induction l as [|o l IH]; constructor.
  - destruct (is_model (class_of o)) eqn:Hm; [|reflexivity].
    apply Hall; [left; reflexivity | exact Hm].
  - apply IH. intros o1 Hin. apply Hall. right. exact Hin.
Qed.

Lemma convert_sound_sized (n : nat) :
  forall o, (ksize o < n)%nat -> sound o ->
  exists o',
    convert_sequential_to_model o = inr o'
    /\ flat o' /\ sound o'
    /\ name (self_of o') = name (self_of o)
    /\ inbound_of o' = inbound_of o.
Proof.
  induction n as [|n IH]; intros o Hsize Hs; [lia|].
  inversion Hs as [self ib self' ib' md' inp inp' il ls il1 ls1 Hc Hc' Hil Hls Hall
                  |self ib md inp il1 ls1 Hc Hil Hls Hall]; subst o.
  - rewrite convert_unfold. cbn [unwrapped].
    apply String.eqb_eq in Hc. rewrite Hc.
    rewrite (truthy_nonempty _ Hil), (truthy_nonempty _ Hls).
    destruct (convert_layers_sound ls1) as (l' & Hl & Hlen & Hf & Hso).
    { intros o Hin Hm. rewrite Forall_forall in Hall.
      destruct (IH o) as (o' & Ho & Hfo & Hso & _).
      - pose proof (ksize_layers self' ib' md' inp' (Some il1) ls1 o Hin).
        pose proof (ksize_model_attr self ib
                      (KObj self' ib' md' inp' (Some il1) (Some ls1)) inp il ls).
        lia.
      - apply Hall; assumption.
      - exists o'. auto. }
    rewrite Hl. eexists. split; [reflexivity|].
    split; [|split; [|split; reflexivity]].
    + constructor; [exact Hc'|]. intros l0 E. injection E as <-. exact Hf.
    + apply sound_model; try assumption.
      intro E. subst l'. destruct ls1; [congruence | discriminate].
  - rewrite convert_unfold. cbn [unwrapped].
    apply String.eqb_neq in Hc. rewrite Hc.
    rewrite (truthy_nonempty _ Hil), (truthy_nonempty _ Hls).
    destruct (convert_layers_sound ls1) as (l' & Hl & Hlen & Hf & Hso).
    { intros o Hin Hm. rewrite Forall_forall in Hall.
      destruct (IH o) as (o' & Ho & Hfo & Hso & _).
      - pose proof (ksize_layers self ib md inp (Some il1) ls1 o Hin). lia.
      - apply Hall; assumption.
      - exists o'. auto. }
    rewrite Hl. eexists. split; [reflexivity|].
    apply String.eqb_neq in Hc.
    split; [|split; [|split; reflexivity]].
    + constructor; [exact Hc|]. intros l0 E. injection E as <-. exact Hf.
    + apply sound_model; try assumption.
      intro E. subst l'. destruct ls1; [congruence | discriminate].
Qed.

Lemma convert_fixed_sized (n : nat) :
  forall o, (ksize o < n)%nat -> sound o -> flat o ->
  convert_sequential_to_model o = inr o.
Proof.
  induction n as [|n IH]; intros o Hsize Hs Hf; [lia|].
  inversion Hf as [self ib md inp il ls Hc Hfl]; subst o.
  inversion Hs as [| self0 ib0 md0 inp0 il1 ls1 _ Hil Hls Hall]; subst;
    [contradiction|].
  rewrite convert_unfold. cbn [unwrapped].
  apply String.eqb_neq in Hc. rewrite Hc.
  rewrite (truthy_nonempty _ Hil), (truthy_nonempty _ Hls).
  rewrite convert_layers_fixed; [reflexivity|].
  intros o Hin Hm. specialize (Hfl ls1 eq_refl).
  rewrite Forall_forall in Hall, Hfl. apply IH.
  - pose proof (ksize_layers self ib md inp (Some il1) ls1 o Hin). lia.
  - apply Hall; assumption.
  - apply Hfl; assumption.
Qed.

End Conversion.

Lemma sequential_model_sound : sound sequential_model.
Proof.
  apply sound_sequential; try discriminate; try reflexivity.
  repeat constructor; discriminate.
Qed.

Lemma outer_model_sound : sound outer_model.
Proof.
  apply sound_model; try discriminate.
  constructor; [discriminate|]. constructor; [|constructor].
  intros _. exact sequential_model_sound.
Qed.

(** X21.  On a model as Keras builds it [convert_sequential_to_model]
    returns a model in which no [Sequential] is left, at any depth of nested
    models; the model returned carries the name and the inbound nodes of the
    model given. *)
Theorem convert_removes_sequential (m : kobj) :
  sound m ->
  exists m',
    convert_sequential_to_model m = inr m'
    /\ flat m'
    /\ name (self_of m') = name (self_of m)
    /\ inbound_of m' = inbound_of m.
Proof.
  intro Hs.
  destruct (convert_sound_sized (S (ksize m)) m (Nat.lt_succ_diag_r _) Hs)
    as (m' & Hc & Hf & _ & Hn & Hi).
  exists m'. repeat split; assumption.
Qed.

Lemma convert_removes_sequential_witness :
  exists m',
    convert_sequential_to_model outer_model = inr m'
    /\ flat m'
    /\ name (self_of m') = "model_1"%string.
Proof.
  destruct (convert_removes_sequential outer_model outer_model_sound)
    as (m' & Hc & Hf & Hn & _).
  exists m'. split; [exact Hc|]. split; [exact Hf | exact Hn].
Defined.

(** X22.  Converting twice is converting once: on a model as Keras builds
    it, the model returned is returned as it is by a second conversion, and a
    model without any [Sequential] is returned as it is by the first. *)
Theorem convert_idempotent (m : kobj) :
  sound m ->
  (flat m -> convert_sequential_to_model m = inr m)
  /\ (forall m', convert_sequential_to_model m = inr m' ->
      convert_sequential_to_model m' = inr m').
Proof.
  intro Hs. split.
  - intro Hf. exact (convert_fixed_sized (S (ksize m)) m (Nat.lt_succ_diag_r _) Hs Hf).
  - intros m' Hc.
    destruct (convert_sound_sized (S (ksize m)) m (Nat.lt_succ_diag_r _) Hs)
      as (m1 & Hc1 & Hf & Hs1 & _).
    rewrite Hc in Hc1. injection Hc1 as <-.
    exact (convert_fixed_sized (S (ksize m')) m' (Nat.lt_succ_diag_r _) Hs1 Hf).
Qed.

Lemma convert_idempotent_witness :
  exists m',
    convert_sequential_to_model outer_model = inr m'
    /\ convert_sequential_to_model m' = inr m'.
Proof.
  destruct (convert_sound_sized (S (ksize outer_model)) outer_model
              (Nat.lt_succ_diag_r _) outer_model_sound) as (m' & Hc & _).
  exists m'. split; [exact Hc|].
  apply (convert_idempotent outer_model outer_model_sound). exact Hc.
Defined.

(** X23.  When the conversion returns a model, that model is the object the
    conversion went on with (the inner model of a [Sequential], under the name
    of the [Sequential]), with as many layers; the layers that are not models
    are the same objects at the same positions, and every model among the
    layers is replaced by its own conversion. *)
Theorem convert_keeps_layers (m m' : kobj) :
  convert_sequential_to_model m = inr m' ->
  exists u ls ls',
    unwrapped m = Some u
    /\ layers_of u = Some ls
    /\ layers_of m' = Some ls'
    /\ self_of m' = self_of u
    /\ input_of m' = input_of u
    /\ length ls' = length ls
    /\ forall i o, nth_error ls i = Some o ->
         if is_model (class_of o)
         then exists o', nth_error ls' i = Some o'
                         /\ convert_sequential_to_model o = inr o'
         else nth_error ls' i = Some o.
Proof.
  destruct m as [self ib md inp il ls]. rewrite convert_unfold.
  destruct (unwrapped (KObj self ib md inp il ls))
    as [[self1 ib1 md1 inp1 il1 ls1]|]; [|discriminate].
  destruct il1 as [i1|]; [|discriminate].
  destruct (truthy i1); [|discriminate].
  destruct ls1 as [l1|]; [|discriminate].
  destruct (truthy l1); [|discriminate].
  destruct (convert_layers l1) as [e|l2] eqn:Hl; [discriminate|].
  intro E. injection E as <-.
  apply convert_layers_pointwise in Hl.
  exists (KObj self1 ib1 md1 inp1 (Some i1) (Some l1)), l1, l2.
  cbn [layers_of self_of input_of].
  split; [reflexivity|]. split; [reflexivity|]. split; [reflexivity|].
  split; [reflexivity|]. split; [reflexivity|].
  split; [symmetry; exact (Forall2_length Hl)|].
  induction Hl as [|o o' l l' Ho Hl IH]; intros i x Hx.
  - destruct i; discriminate.
  - destruct i as [|i]; cbn [nth_error] in *.
    + injection Hx as <-. destruct (is_model (class_of o)).
      * exists o'. split; [reflexivity | exact Ho].
      * subst o'. reflexivity.
    + apply IH. exact Hx.
Qed.

Lemma convert_keeps_layers_witness :
  exists u ls ls',
    unwrapped sequential_model = Some u
    /\ layers_of u = Some ls
    /\ layers_of (KObj (set_name "sequential_1"%string (self_of inner_model)) [7%nat]
                    None [1; 1; 1; 1]%nat (Some [0%nat])
                    (Some [plain_obj dense_layer; plain_obj half_dead_layer]))
       = Some ls'
    /\ length ls' = length ls.
Proof.
  destruct (convert_keeps_layers sequential_model
              (KObj (set_name "sequential_1"%string (self_of inner_model)) [7%nat]
                 None [1; 1; 1; 1]%nat (Some [0%nat])
                 (Some [plain_obj dense_layer; plain_obj half_dead_layer])))
    as (u & ls & ls' & Hu & Hls & Hls' & _ & _ & Hlen & _).
  - reflexivity.
  - exists u, ls, ls'. repeat split; assumption.
Defined.

Lemma convert_layers_failure (l : list kobj) (o : kobj) (e : pyexc) :
  In o l -> is_model (class_of o) = true ->
  convert_sequential_to_model o = inl e ->
  exists e', convert_layers l = inl e'.
Proof.
  intros Hin Hm Ho. induction l as [|a l IH]; [destruct Hin|].
  cbn [convert_layers].
  destruct (if is_model (class_of a) then convert_sequential_to_model a
            else inr a) as [e1|a'] eqn:Ha; [exists e1; reflexivity|].
  destruct Hin as [->|Hin].
  - rewrite Hm, Ho in Ha. discriminate.
  - destruct (IH Hin) as [e' ->]. exists e'. reflexivity.
Qed.

(** X24.  The conversion raises [AttributeError] for a [Sequential] without
    the attribute [model] and for a model without the attributes
    [input_layers] or [layers]; it fails its first assertion for a model
    without input layers and its second for a model without layers; and an
    exception raised for a model among the layers ends the whole conversion. *)
Theorem convert_errors (m : kobj) :
  (unwrapped m = None ->
   class_of m = "Sequential"%string
   /\ convert_sequential_to_model m = inl AttributeError)
  /\ (forall u, unwrapped m = Some u ->
      (input_layers_of u = None ->
       convert_sequential_to_model m = inl AttributeError)
      /\ (input_layers_of u = Some [] ->
          convert_sequential_to_model m = inl (Raised AssertionError))
      /\ (forall i il, input_layers_of u = Some (i :: il) ->
          (layers_of u = None ->
           convert_sequential_to_model m = inl AttributeError)
          /\ (layers_of u = Some [] ->
              convert_sequential_to_model m = inl (Raised AssertionError))
          /\ (forall ls o e,
                layers_of u = Some ls -> In o ls ->
                is_model (class_of o) = true ->
                convert_sequential_to_model o = inl e ->
                exists e', convert_sequential_to_model m = inl e'))).
Proof.
  destruct m as [self ib md inp il ls]. rewrite !convert_unfold. split.
  - intro Hu. rewrite Hu. split; [|reflexivity].
    cbn [unwrapped] in Hu. unfold class_of. cbn [self_of].
    destruct (String.eqb_spec (type_name self) "Sequential"); [assumption|].
    discriminate.
  - intros [self1 ib1 md1 inp1 il1 ls1] Hu. rewrite Hu.
    cbn [input_layers_of layers_of]. split; [intros ->; reflexivity|].
    split; [intros ->; reflexivity|].
    intros i il0 ->. cbn [truthy]. split; [intros ->; reflexivity|].
    split; [intros ->; reflexivity|].
    intros l o e -> Hin Hm Ho.
    destruct (convert_layers_failure l o e Hin Hm Ho) as [e' Hl].
    destruct l as [|o0 l0]; [destruct Hin|]. cbn [truthy].
    rewrite Hl. exists e'. reflexivity.
Qed.

Section EntryPoint.

Lemma events_since_same (w : world) : events_since w w = [].
Proof. unfold events_since. apply skipn_all. Qed.

Lemma events_since_print (s : pystr) (w : world) :
  events_since w (fst (print s w)) = [Print s].
Proof.
  unfold events_since, print, emit. cbn [fst log].
  rewrite skipn_app, skipn_all, Nat.sub_diag. reflexivity.
Qed.

End EntryPoint.

(** X25.  Called with a number of command-line arguments other than two,
    [main] prints the usage line and exits with the code one: no setting of the
    backend is checked, no model is loaded and nothing else happens. *)
Theorem main_usage (S : settings) (K : backend) (H : host)
    (load_model : pystr -> pyexc + kobj) (argv : list pystr) (w : world) :
  length argv <> 3%nat ->
  exists w',
    main S K H load_model argv w = (w', inl (SystemExit 1))
    /\ events_since w w' = [Print usage]
    /\ heap w' = heap w /\ rng w' = rng w /\ clock w' = clock w.
Proof.
  intro Hn. unfold main.
  destruct (Nat.eqb_spec (length argv) 3) as [E|_]; [contradiction|].
  cbn [negb]. eexists. split; [reflexivity|].
  split; [apply events_since_print|]. repeat split.
Qed.

Lemma main_usage_witness :
  exists w',
    main default_settings default_backend example_host load_outer short_argv
      (world_of []) = (w', inl (SystemExit 1))
    /\ events_since (world_of []) w' = [Print usage].
Proof.
  destruct (main_usage default_settings default_backend example_host
              load_outer short_argv (world_of []))
    as (w' & Hrun & Hev & _).
  - simpl. lia.
  - exists w'. split; [exact Hrun | exact Hev].
Defined.

(** X26.  Called with two arguments under a backend other than TensorFlow,
    a float type other than float32 or the channels-first format, [main] fails
    an assertion before it prints anything or loads the model. *)
Theorem main_checks (S : settings) (K : backend) (H : host)
    (load_model : pystr -> pyexc + kobj) (argv : list pystr) (w : world) :
  length argv = 3%nat ->
  backend_name S <> "tensorflow"%string
  \/ floatx S <> "float32"%string
  \/ image_data_format K = channels_first ->
  main S K H load_model argv w = (w, inl (Raised AssertionError)).
Proof.
  intros Hn Hbad. unfold main. rewrite Hn. cbn [Nat.eqb negb].
  destruct (String.eqb_spec (backend_name S) "tensorflow") as [Eb|_];
    [|reflexivity].
  cbn [negb].
  destruct (String.eqb_spec (floatx S) "float32") as [Ef|_]; [|reflexivity].
  cbn [negb].
  destruct Hbad as [Hb|[Hf|Hc]]; [contradiction | contradiction |].
  rewrite Hc. reflexivity.
Qed.

Lemma main_checks_witness :
  main default_settings first_backend example_host load_outer good_argv
    (world_of []) = (world_of [], inl (Raised AssertionError)).
Proof.
  apply main_checks; [reflexivity|]. right. right. reflexivity.
Defined.

(** X27.  Whatever the arguments, the settings and the model, a run of
    [main] in which the backend function is evaluated or an image is written is
    a run with two command-line arguments, under TensorFlow, float32 and the
    channels-last format: [deprocess_image] never transposes in a run of the
    program. *)
Theorem main_work_is_checked (S : settings) (K : backend) (H : host)
    (load_model : pystr -> pyexc + kobj) (argv : list pystr) (w : world) :
  evals (events_since w (fst (main S K H load_model argv w))) <> []
  \/ saves (events_since w (fst (main S K H load_model argv w))) <> [] ->
  length argv = 3%nat
  /\ backend_name S = "tensorflow"%string
  /\ floatx S = "float32"%string
  /\ image_data_format K = channels_last.
Proof.
  unfold main.
  destruct (Nat.eqb_spec (length argv) 3) as [En|_]; cbn [negb].
  2:{ cbn [fst]. rewrite events_since_print. cbn. intros [E|E]; congruence. }
  destruct (String.eqb_spec (backend_name S) "tensorflow") as [Eb|_]; cbn [negb].
  2:{ cbn [fst]. rewrite events_since_same. cbn. intros [E|E]; congruence. }
  destruct (String.eqb_spec (floatx S) "float32") as [Ef|_]; cbn [negb].
  2:{ cbn [fst]. rewrite events_since_same. cbn. intros [E|E]; congruence. }
  destruct (image_data_format K).
  - cbn [fst]. rewrite events_since_same. cbn. intros [E|E]; congruence.
  - intros _. repeat split; assumption.
Qed.

(** The run of [main] on the example model of two layers. *)
Lemma main_inner_run :
  exists tr,
    log (fst (main default_settings default_backend example_host load_inner
                good_argv (world_of [])))
    = log (world_of []) ++ Print "loading model.h5"%string :: tr
    /\ evals tr <> [].
Proof.
  assert (Hconv : convert_sequential_to_model inner_model = inr inner_model)
    by reflexivity.
  unfold main. cbn [good_argv length Nat.eqb negb].
  change (String.eqb (backend_name default_settings) "tensorflow") with true.
  change (String.eqb (floatx default_settings) "float32") with true.
  cbn [negb image_data_format default_backend nth load_inner].
  rewrite Hconv. cbn [layers_of inner_model map self_of plain_obj input_of].
  set (w1 := fst (print ("loading " ++ "model.h5")%string (world_of []))).
  set (m := {| layers := [dense_layer; half_dead_layer];
               input_shape := [1; 1; 1; 1]%nat |}).
  unfold process_layers. cbn [layers m for_layers].
  assert (Hd : layer_body default_backend example_host m "out"%string
                 dense_layer w1 = (w1, inr tt)) by reflexivity.
  rewrite (bind_ok _ _ _ _ _ Hd).
  destruct (half_dead_run m "out"%string w1 eq_refl)
    as (w' & tr & img & Hrun & Hlog & Hev & _).
  rewrite (bind_ok _ _ _ _ _ Hrun). cbn [for_layers ret fst].
  exists tr. split; [|exact Hev]. rewrite Hlog. reflexivity.
Qed.

Lemma main_work_is_checked_witness :
  length good_argv = 3%nat
  /\ backend_name default_settings = "tensorflow"%string
  /\ floatx default_settings = "float32"%string
  /\ image_data_format default_backend = channels_last.
Proof.
  apply (main_work_is_checked default_settings default_backend example_host
           load_inner good_argv (world_of [])).
  left. destruct main_inner_run as (tr & Hlog & Hev).
  rewrite (events_since_app _ _ _ Hlog). cbn [evals]. exact Hev.
Defined.

(** A model the conversion returns has the attribute [layers]. *)
Lemma convert_result_layers (m m' : kobj) :
  convert_sequential_to_model m = inr m' ->
  exists ls, layers_of m' = Some ls.
Proof.
  destruct m as [self ib md inp il ls]. rewrite convert_unfold.
  destruct (unwrapped (KObj self ib md inp il ls))
    as [[self1 ib1 md1 inp1 il1 ls1]|]; [|discriminate].
  destruct il1 as [i1|]; [|discriminate].
  destruct (truthy i1); [|discriminate].
  destruct ls1 as [l1|]; [|discriminate].
  destruct (truthy l1); [|discriminate].
  destruct (convert_layers l1) as [e|l2]; [discriminate|].
  intro E. injection E as <-. exists l2. reflexivity.
Qed.

(** X28.  With two arguments and the settings it asks for, [main] prints
    the line [loading] with the path of the model, and for a model as Keras
    builds it, it then runs [process_layers] on the layers of the converted
    model with the second argument as the output directory; what
    [process_layers] raises is what [main] raises. *)
Theorem main_runs_layers (S : settings) (K : backend) (H : host)
    (load_model : pystr -> pyexc + kobj) (argv : list pystr) (w : world)
    (m : kobj) :
  length argv = 3%nat ->
  backend_name S = "tensorflow"%string ->
  floatx S = "float32"%string ->
  image_data_format K = channels_last ->
  load_model (nth 1 argv EmptyString) = inr m ->
  sound m ->
  exists m' ls,
    convert_sequential_to_model m = inr m'
    /\ flat m'
    /\ layers_of m' = Some ls
    /\ let w1 := fst (print ("loading " ++ nth 1 argv EmptyString)%string w) in
       let run := process_layers K H
                    {| layers := map self_of ls; input_shape := input_of m' |}
                    (nth 2 argv EmptyString) w1 in
       fst (main S K H load_model argv w) = fst run
       /\ snd (main S K H load_model argv w)
          = match snd run with
            | inl e => inl (Raised e)
            | inr _ => inr tt
            end.
Proof.
  intros Hn Hb Hf Hc Hload Hs.
  destruct (convert_sound_sized (Datatypes.S (ksize m)) m
              (Nat.lt_succ_diag_r _) Hs) as (m' & Hconv & Hflat & _).
  destruct (convert_result_layers m m' Hconv) as (ls & Hls).
  exists m', ls. split; [exact Hconv|]. split; [exact Hflat|].
  split; [exact Hls|]. cbv zeta.
  unfold main. rewrite Hn. cbn [Nat.eqb negb].
  apply String.eqb_eq in Hb, Hf. rewrite Hb, Hf. cbn [negb].
  rewrite Hc, Hload, Hconv, Hls.
  destruct (process_layers K H _ _ _) as [w2 [e|[]]]; split; reflexivity.
Qed.

Lemma main_runs_layers_witness :
  exists m' ls,
    convert_sequential_to_model outer_model = inr m'
    /\ flat m'
    /\ layers_of m' = Some ls.
Proof.
  destruct (main_runs_layers default_settings default_backend example_host
              load_outer good_argv (world_of []) outer_model
              eq_refl eq_refl eq_refl eq_refl eq_refl outer_model_sound)
    as (m' & ls & Hc & Hf & Hl & _).
  exists m', ls. split; [exact Hc|]. split; [exact Hf | exact Hl].
Defined.
